(** * Surface profile synthesis of the tribology toolkit

    A shallow embedding of [profball] and [profrevolve] of
    [src/tribology/tribology.py], over the real numbers.

    Numbers are modelled as mathematical reals ([R]); rounding, overflow and
    the other effects of binary floating point are outside the model.  The one
    floating-point value the source can produce from real inputs without
    overflow, the NaN that [np.sqrt] returns on a negative argument, is kept
    as a distinguished value.  Python exceptions are an explicit error result,
    and the in-place filling of the numpy grid is explicit state passing.

    Overflow is modelled apart, for [profrevolve] only: [profrevolve64] runs
    the same lines on floats that have infinities and NaN, and is proved to
    agree with the real model while the squares it takes stay in range. *)

From Stdlib Require Import Reals Lra ZArith Lia.
From stdpp Require Import base tactics option list strings gmap.

Open Scope R_scope.

(** ** Exceptions *)

Inductive exn : Type :=
  | IndexError
  | ValueError.

Inductive result (A : Type) : Type :=
  | Ok (a : A)
  | Raise (e : exn).

Arguments Ok {A} a.
Arguments Raise {A} e.

Definition bind {A B : Type} (m : result A) (k : A -> result B) : result B :=
  match m with
  | Ok a => k a
  | Raise e => Raise e
  end.

Notation "'let!' x ':=' m 'in' k" := (bind m (fun x => k))
  (at level 10, x name, m at level 100, k at level 200).

(** [for x in l: s = body(s, x)], stopping at the first exception. *)
Fixpoint for_each {A S : Type} (body : S -> A -> result S) (l : list A) (s : S)
  : result S :=
  match l with
  | [] => Ok s
  | x :: l' => let! s' := body s x in for_each body l' s'
  end.

(** [range(n)] *)
Definition range (n : nat) : list nat := seq 0 n.

(** ** Scalars *)

(** A numpy float: a real number, or NaN. *)
Inductive npfloat : Type :=
  | Num (r : R)
  | NaN.

(** [np.sign]: -1, 0 or 1; the sign of 0 is 0. *)
Definition np_sign (x : R) : R :=
  if Rlt_dec 0 x then 1 else if Rlt_dec x 0 then -1 else 0.

(** [np.sqrt]: NaN on a negative argument (numpy warns, it does not raise). *)
Definition np_sqrt (x : R) : npfloat :=
  if Rlt_dec x 0 then NaN else Num (sqrt x).

(** [math.sqrt]: raises ValueError on a negative argument. *)
Definition math_sqrt (x : R) : result R :=
  if Rlt_dec x 0 then Raise ValueError else Ok (sqrt x).

(** NaN-propagating arithmetic of numpy floats. *)
Definition np_sub (a b : npfloat) : npfloat :=
  match a, b with
  | Num x, Num y => Num (x - y)
  | _, _ => NaN
  end.

Definition np_mul (a b : npfloat) : npfloat :=
  match a, b with
  | Num x, Num y => Num (x * y)
  | _, _ => NaN
  end.

(** Python's [==] on floats: NaN is equal to nothing, itself included. *)
Definition py_eq (a b : npfloat) : Prop :=
  match a, b with
  | Num x, Num y => x = y
  | _, _ => False
  end.

(** [round(n / 2)] for an integer [n]: Python 3 rounds a half to the even
    neighbour. *)
Definition round_half (n : Z) : Z :=
  let q := (n / 2)%Z in
  if Z.even n then q else if Z.even q then q else (q + 1)%Z.

(** [floor(n / 2)] *)
Definition floor_half (n : Z) : Z := (n / 2)%Z.

(** ** Sequences and grids *)

(** [l[i]] for an index produced by [range]: never negative. *)
Definition getitem {A : Type} (l : list A) (i : nat) : result A :=
  match l !! i with
  | Some x => Ok x
  | None => Raise IndexError
  end.

(** A two-dimensional numpy array: its shape and its rows.  The shape is kept
    beside the rows because an array with no row still has a column count,
    which indexing checks. *)
Record ndarray : Type := NdArray {
  nd_rows : nat;
  nd_cols : nat;
  nd_data : list (list R)
}.

(** Every array the program builds has the rows its shape announces. *)
Definition nd_wf (a : ndarray) : Prop :=
  length (nd_data a) = nd_rows a /\
  Forall (fun row => length row = nd_cols a) (nd_data a).

(** [np.zeros((n, m))] *)
Definition np_zeros (n m : nat) : ndarray :=
  NdArray n m (replicate n (replicate m 0)).

(** numpy's treatment of one index on an axis of size [n]: [-n <= i < n],
    a negative index counting from the end. *)
Definition np_index (n : nat) (i : Z) : result nat :=
  if decide (0 <= i < Z.of_nat n)%Z then Ok (Z.to_nat i)
  else if decide (- Z.of_nat n <= i < 0)%Z then Ok (Z.to_nat (i + Z.of_nat n))
  else Raise IndexError.

(** The cell at normalised indices. *)
Definition nd_cell (a : ndarray) (i j : nat) : option R :=
  nd_data a !! i ≫= (.!! j).

(** [a[i, j]] *)
Definition nd_getitem (a : ndarray) (i j : Z) : result R :=
  let! i' := np_index (nd_rows a) i in
  let! j' := np_index (nd_cols a) j in
  match nd_cell a i' j' with
  | Some v => Ok v
  | None => Raise IndexError
  end.

(** [a[i, j] = v] *)
Definition nd_setitem (a : ndarray) (i j : Z) (v : R) : result ndarray :=
  let! i' := np_index (nd_rows a) i in
  let! j' := np_index (nd_cols a) j in
  Ok (NdArray (nd_rows a) (nd_cols a) (alter (<[j' := v]>) i' (nd_data a))).

(** [a.min()]: ValueError on an array of size zero. *)
Definition nd_min (a : ndarray) : result R :=
  match concat (nd_data a) with
  | [] => Raise ValueError
  | v :: vs => Ok (foldl Rmin v vs)
  end.

(** [a[:, j]] *)
Definition nd_column (a : ndarray) (j : Z) : result (list R) :=
  let! j' := np_index (nd_cols a) j in
  Ok (omap (.!! j') (nd_data a)).

(** Elementwise map, as in [-(a - c)] and [-a]. *)
Definition nd_map (f : R -> R) (a : ndarray) : ndarray :=
  NdArray (nd_rows a) (nd_cols a) ((fun row : list R => f <$> row) <$> nd_data a).

(** ** profball *)

(** [prof = np.array(abs(r_ball) - np.sqrt(r_ball ** 2 - np.power(x_axis, 2)))]
    [return prof * np.sign(r_ball)] *)
Definition profball (x_axis : list R) (r_ball : R) : list npfloat :=
  let prof :=
    (fun x => np_sub (Num (Rabs r_ball)) (np_sqrt (r_ball ^ 2 - x ^ 2)))
      <$> x_axis in
  (fun h => np_mul h (Num (np_sign r_ball))) <$> prof.

(** ** profrevolve *)

Section Revolve.

Variables (prof_2d y_axis : list R) (y_diam : R).

(** Lines 52-53: the bracket of cell [(i_x, i_y)]. *)
Definition bracket_at (i_x i_y : nat) : result R :=
  let! p := getitem prof_2d i_x in
  let! y := getitem y_axis i_y in
  Ok ((y_diam / 2 - np_sign y_diam * p) ^ 2 - y ^ 2).

(** Lines 52-57: the body of the inner loop. *)
Definition fill_cell (i_x : nat) (prof_3d : ndarray) (i_y : nat)
  : result ndarray :=
  let! bracket := bracket_at i_x i_y in
  if Rle_dec bracket 0 then
    nd_setitem prof_3d (Z.of_nat i_x) (Z.of_nat i_y) (Rabs y_diam / 2)
  else
    let! root := math_sqrt bracket in
    nd_setitem prof_3d (Z.of_nat i_x) (Z.of_nat i_y)
               (Rabs y_diam / 2 - np_sign y_diam * root).

(** Lines 51-57: the inner loop over [i_y]. *)
Definition fill_row (prof_3d : ndarray) (i_x : nat) : result ndarray :=
  for_each (fill_cell i_x) (range (length y_axis)) prof_3d.

(** Lines 46-57: the grid before normalisation. *)
Definition raw_grid : result ndarray :=
  let len_x := length prof_2d in
  let len_y := length y_axis in
  for_each fill_row (range len_x) (np_zeros len_x len_y).

(** Lines 58-61: the reference value. *)
Definition min_prof (prof_3d : ndarray) : result R :=
  let len_x := Z.of_nat (length prof_2d) in
  if Rlt_dec 0 y_diam then nd_min prof_3d
  else nd_getitem prof_3d (round_half len_x - 1) (round_half len_x - 1).

(** The whole function. *)
Definition profrevolve : result (ndarray * list R) :=
  let len_y := Z.of_nat (length y_axis) in
  let! prof_3d := raw_grid in
  let! ref := min_prof prof_3d in
  let prof_3d := nd_map (fun v => - (v - ref)) prof_3d in
  let! y_profile := nd_column prof_3d (floor_half len_y) in
  Ok (nd_map Ropp prof_3d, y_profile).

End Revolve.

(** ** The cell formula, as a pure function

    [bracket] and [cell_value] restate lines 52-57 for one profile height [p]
    and one coordinate [y]; [raw_grid_eq] below proves that the loops compute
    exactly this function at every cell. *)

Definition bracket (y_diam p y : R) : R :=
  (y_diam / 2 - np_sign y_diam * p) ^ 2 - y ^ 2.

Definition cell_value (y_diam p y : R) : R :=
  if Rle_dec (bracket y_diam p y) 0 then Rabs y_diam / 2
  else Rabs y_diam / 2 - np_sign y_diam * sqrt (bracket y_diam p y).

Definition grid_of (prof_2d y_axis : list R) (y_diam : R) : ndarray :=
  NdArray (length prof_2d) (length y_axis)
          ((fun p => cell_value y_diam p <$> y_axis) <$> prof_2d).

(** The bracket as the specification words it, with [|y_diam| / 2]. *)
Definition bracket_spec (y_diam p y : R) : R :=
  (Rabs y_diam / 2 - np_sign y_diam * p) ^ 2 - y ^ 2.

(** The index [round(len_x / 2) - 1] addresses a row and a column of a grid
    of shape [(len_x, len_y)]. *)
Definition ref_cell_exists (len_x len_y : nat) : Prop :=
  let k := (round_half (Z.of_nat len_x) - 1)%Z in
  (- Z.of_nat len_x <= k < Z.of_nat len_x)%Z /\
  (- Z.of_nat len_y <= k < Z.of_nat len_y)%Z.

#[local] Instance ref_cell_exists_dec len_x len_y :
  Decision (ref_cell_exists len_x len_y).
Proof. unfold ref_cell_exists. apply _. Defined.

(** * The scalar formulas of the module

    The functions below take Python numbers.  A division by zero of Python
    numbers raises ZeroDivisionError, a dictionary lookup of a missing key
    raises KeyError, and [math.acos] raises ValueError outside [-1, 1]. *)

Inductive error : Type :=
  | ZeroDivisionError
  | KeyError (key : string)
  | Exn (e : exn).

Inductive outcome (A : Type) : Type :=
  | Return (a : A)
  | Throw (e : error).

Arguments Return {A} a.
Arguments Throw {A} e.

Definition and_then {A B : Type} (m : outcome A) (k : A -> outcome B)
  : outcome B :=
  match m with
  | Return a => k a
  | Throw e => Throw e
  end.

Notation "'let?' x ':=' m 'in' k" := (and_then m (fun x => k))
  (at level 10, x name, m at level 100, k at level 200).

(** [for x in l: s = body(s, x)] *)
Fixpoint for_loop {A S : Type} (body : S -> A -> outcome S) (l : list A) (s : S)
  : outcome S :=
  match l with
  | [] => Return s
  | x :: l' => let? s' := body s x in for_loop body l' s'
  end.

(** [a / b] on Python numbers. *)
Definition py_div (a b : R) : outcome R :=
  if Req_dec_T b 0 then Throw ZeroDivisionError else Return (a / b).

(** [math.acos] *)
Definition math_acos (x : R) : outcome R :=
  if Rle_dec (-1) x then
    if Rle_dec x 1 then Return (acos x) else Throw (Exn ValueError)
  else Throw (Exn ValueError).

(** [d[k]] on a dictionary with string keys. *)
Definition dict_getitem (d : gmap string R) (k : string) : outcome R :=
  match d !! k with
  | Some v => Return v
  | None => Throw (KeyError k)
  end.

(** ** Kinematics *)

Definition vslide (vel_1 vel_2 : R) : R := vel_1 - vel_2.

Definition vroll (vel_1 vel_2 : R) : R := (vel_1 + vel_2) / 2.

Definition srr (vel_1 vel_2 : R) : outcome R :=
  py_div (vslide vel_1 vel_2) (vroll vel_1 vel_2).

Definition rpm2radpersec (vel : R) : R := vel / 60 * 2 * PI.

Definition radpersec2rpm (vel : R) : outcome R :=
  let? per := py_div 1 vel in
  py_div 1 (rpm2radpersec per).

(** ** Test rigs *)

(** The default of [plate_angle]. *)
Definition plate_angle_default : R := 15708 / 10000.

Definition rball3plates (r_ball plate_angle : R) : R :=
  r_ball * sin ((PI - plate_angle) / 2).

Definition fball3plates (ax_force plate_angle : R) : outcome R :=
  py_div (ax_force / 3) (cos (plate_angle / 2)).

Definition gfourball (r_1 r_2 : R) : outcome (R * R) :=
  let r_circum_circle := sqrt 3 / 3 * 2 * r_2 in
  let? ratio := py_div r_circum_circle (r_1 + r_2) in
  let? contact_angle := math_acos ratio in
  let sliding_radius := r_circum_circle - r_2 * cos contact_angle in
  Return (sliding_radius, contact_angle).


(** ** Unit prefixes *)

(** The dictionary of [refix]; [10 ** e] is [powerRZ 10 e]. *)
Definition prefix : gmap string R :=
  <["p" := powerRZ 10 (-12)]> (
  <["n" := powerRZ 10 (-9)]> (
  <["mu" := powerRZ 10 (-6)]> (
  <["m" := powerRZ 10 (-3)]> (
  <["" := powerRZ 10 (-0)]> (
  <["k" := powerRZ 10 3]> (
  <["M" := powerRZ 10 6]> (
  <["G" := powerRZ 10 9]> (
  <["T" := powerRZ 10 12]> ∅)))))))).

Definition refix (value : R) (p_in p_out : string) : outcome R :=
  let? scale_in := dict_getitem prefix p_in in
  let? scale_out := dict_getitem prefix p_out in
  py_div (value * scale_in) scale_out.

(** ** Hertzian parameters *)

(** A Python float that may be infinite: [reff] tests its arguments against
    [float('inf')]. *)
Inductive pyfloat : Type :=
  | Finite (x : R)
  | PlusInf
  | MinusInf
  | NotANumber.

(** [r == 0] *)
Definition is_zero (r : pyfloat) : bool :=
  match r with
  | Finite x => if Req_dec_T x 0 then true else false
  | _ => false
  end.

(** [abs(r) == float('inf')] *)
Definition abs_is_inf (r : pyfloat) : bool :=
  match r with
  | PlusInf | MinusInf => true
  | _ => false
  end.

(** [-r] *)
Definition py_neg (r : pyfloat) : pyfloat :=
  match r with
  | Finite x => Finite (- x)
  | PlusInf => MinusInf
  | MinusInf => PlusInf
  | NotANumber => NotANumber
  end.

(** [a == b] *)
Definition py_eqb (a b : pyfloat) : bool :=
  match a, b with
  | Finite x, Finite y => if Req_dec_T x y then true else false
  | PlusInf, PlusInf => true
  | MinusInf, MinusInf => true
  | _, _ => false
  end.

(** [a + b] *)
Definition py_add (a b : pyfloat) : pyfloat :=
  match a, b with
  | Finite x, Finite y => Finite (x + y)
  | NotANumber, _ | _, NotANumber => NotANumber
  | PlusInf, MinusInf | MinusInf, PlusInf => NotANumber
  | PlusInf, _ | _, PlusInf => PlusInf
  | MinusInf, _ | _, MinusInf => MinusInf
  end.

(** [1 / r] *)
Definition py_recip (r : pyfloat) : outcome pyfloat :=
  match r with
  | Finite x =>
      if Req_dec_T x 0 then Throw ZeroDivisionError else Return (Finite (1 / x))
  | PlusInf | MinusInf => Return (Finite 0)
  | NotANumber => Return NotANumber
  end.

(** A radius that is zero, positive or plus infinity: a flat or convex body. *)
Definition flat_or_convex (r : pyfloat) : Prop :=
  match r with
  | Finite x => 0 <= x
  | PlusInf => True
  | MinusInf | NotANumber => False
  end.

Definition reff (r_1 r_2 : pyfloat) : outcome pyfloat :=
  if (is_zero r_1 || abs_is_inf r_1) && negb (is_zero r_2) then Return r_2
  else if (is_zero r_2 || abs_is_inf r_2) && negb (is_zero r_1) then Return r_1
  else if (is_zero r_1 || abs_is_inf r_1) && (is_zero r_2 || abs_is_inf r_2)
  then Return (Finite 0)
  else if py_eqb r_1 (py_neg r_2) then Return (Finite 0)
  else
    let? a := py_recip r_1 in
    let? b := py_recip r_2 in
    py_recip (py_add a b).

(** The loop of [eeff] fills [recip_radius], which nothing reads. *)
Definition eeff (r_x_1 r_y_1 r_x_2 r_y_2 : pyfloat)
  : outcome (pyfloat * pyfloat * pyfloat) :=
  let? recip_radius :=
    for_loop (fun recip_radius radius =>
                if is_zero radius then Return (recip_radius ++ [PlusInf])
                else let? q := py_recip radius in
                     Return (recip_radius ++ [q]))
             [r_x_1; r_y_1; r_x_2; r_y_2] [] in
  let? r_eff_x := reff r_x_1 r_x_2 in
  let? r_eff_y := reff r_y_1 r_y_2 in
  let? r_eff := reff r_eff_x r_eff_y in
  Return (r_eff, r_eff_x, r_eff_y).

Definition meff (e_1 nu_1 e_2 nu_2 : R) : outcome R :=
  let? c_1 := py_div (1 - nu_1 ^ 2) (2 * e_1) in
  let? c_2 := py_div (1 - nu_2 ^ 2) (2 * e_2) in
  py_div 1 (c_1 + c_2).

(** ** Abbott-Firestone curve *)

#[local] Instance Rle_decision (x y : R) : Decision (x <= y) := Rle_dec x y.

(** [np.amax], [np.amin]: ValueError on an empty array. *)
Definition np_amax (a : list R) : outcome R :=
  match a with
  | [] => Throw (Exn ValueError)
  | v :: vs => Return (foldl Rmax v vs)
  end.

Definition np_amin (a : list R) : outcome R :=
  match a with
  | [] => Throw (Exn ValueError)
  | v :: vs => Return (foldl Rmin v vs)
  end.

(** [np.linspace(start, stop, num)]: ValueError on a negative [num];
    [num] samples [start + i * step] with [step = (stop - start) / (num - 1)],
    the last one being set to [stop] when [num > 1]. *)
Definition np_linspace (start stop : R) (num : Z) : outcome (list R) :=
  if decide (num < 0)%Z then Throw (Exn ValueError)
  else
    let n := Z.to_nat num in
    let div := (num - 1)%Z in
    let delta := stop - start in
    let y := INR <$> seq 0 n in
    let y :=
      if decide (0 < div)%Z then (fun v => v * (delta / IZR div)) <$> y
      else (fun v => v * delta) <$> y in
    let y := (fun v => v + start) <$> y in
    Return (if decide (1 < num)%Z then <[(n - 1)%nat := stop]> y else y).

(** [len(np.where(trace >= basket)[0])] *)
Definition count_at_least (trace : list R) (basket : R) : nat :=
  length (filter (fun t => basket <= t) trace).

Definition abbottfirestone (trace : list R) (res : Z)
  : outcome (list R * list R) :=
  let? top := np_amax trace in
  let? bottom := np_amin trace in
  let? baskets := np_linspace top bottom res in
  let? cum_dist :=
    for_loop (fun cum_dist basket =>
                let? share := py_div (INR (count_at_least trace basket))
                                     (INR (length trace)) in
                Return (cum_dist ++ [share * IZR res]))
             baskets [] in
  Return (baskets, cum_dist).

(** * profrevolve on floats that overflow

    The real-number model of [profrevolve] cannot overflow.  The definitions
    below run the same lines 46-64 on binary64 values: a finite value is the
    real number it stands for (rounding is not modelled), a result beyond the
    largest float becomes an infinity, and [inf - inf] and [0 * inf] are NaN.
    [pow] on a Python float raises OverflowError where numpy's float64 gives
    an infinity. *)

Inductive float_exn : Type :=
  | OverflowError
  | Raised (e : exn).

Inductive attempt (A : Type) : Type :=
  | Got (a : A)
  | Failed (e : float_exn).

Arguments Got {A} a.
Arguments Failed {A} e.

Definition attempt_bind {A B : Type} (m : attempt A) (k : A -> attempt B)
  : attempt B :=
  match m with
  | Got a => k a
  | Failed e => Failed e
  end.

Notation "'let*' x ':=' m 'in' k" := (attempt_bind m (fun x => k))
  (at level 10, x name, m at level 100, k at level 200).

Fixpoint for_every {A S : Type} (body : S -> A -> attempt S) (l : list A) (s : S)
  : attempt S :=
  match l with
  | [] => Got s
  | x :: l' => let* s' := body s x in for_every body l' s'
  end.

(** The largest binary64 value, [(2^53 - 1) * 2^971]. *)
Definition max_float : R := IZR ((2 ^ 53 - 1) * 2 ^ 971).

(** The float64 holding the result [x] of an operation. *)
Definition f64_of (x : R) : pyfloat :=
  if Rlt_dec max_float x then PlusInf
  else if Rlt_dec x (- max_float) then MinusInf
  else Finite x.

Definition f64_add (a b : pyfloat) : pyfloat :=
  match a, b with
  | Finite x, Finite y => f64_of (x + y)
  | NotANumber, _ | _, NotANumber => NotANumber
  | PlusInf, MinusInf | MinusInf, PlusInf => NotANumber
  | PlusInf, _ | _, PlusInf => PlusInf
  | MinusInf, _ | _, MinusInf => MinusInf
  end.

Definition f64_sub (a b : pyfloat) : pyfloat := f64_add a (py_neg b).

(** The infinity of a product with the finite non-zero factor [x]. *)
Definition f64_scale_inf (x : R) (inf : pyfloat) : pyfloat :=
  if Req_dec_T x 0 then NotANumber
  else if Rlt_dec 0 x then inf else py_neg inf.

Definition f64_mul (a b : pyfloat) : pyfloat :=
  match a, b with
  | Finite x, Finite y => f64_of (x * y)
  | NotANumber, _ | _, NotANumber => NotANumber
  | Finite x, inf | inf, Finite x => f64_scale_inf x inf
  | PlusInf, PlusInf | MinusInf, MinusInf => PlusInf
  | PlusInf, MinusInf | MinusInf, PlusInf => MinusInf
  end.

(** [np.minimum] as [a.min()] folds it: NaN wins. *)
Definition f64_min (a b : pyfloat) : pyfloat :=
  match a, b with
  | Finite x, Finite y => Finite (Rmin x y)
  | NotANumber, _ | _, NotANumber => NotANumber
  | MinusInf, _ | _, MinusInf => MinusInf
  | PlusInf, c | c, PlusInf => c
  end.

(** [a <= 0] *)
Definition f64_le0 (a : pyfloat) : bool :=
  match a with
  | Finite x => if Rle_dec x 0 then true else false
  | MinusInf => true
  | PlusInf | NotANumber => false
  end.

(** [math.sqrt] on a float64. *)
Definition math_sqrt64 (a : pyfloat) : attempt pyfloat :=
  match a with
  | Finite x =>
      if Rlt_dec x 0 then Failed (Raised ValueError) else Got (Finite (sqrt x))
  | PlusInf => Got PlusInf
  | MinusInf => Failed (Raised ValueError)
  | NotANumber => Got NotANumber
  end.

(** [y_axis] is a Python list of floats or a numpy array: [pow(y, 2)] raises
    OverflowError on an element of the first and overflows to infinity on an
    element of the second. *)
Inductive vector_kind : Type :=
  | PyList
  | NpArray.

Definition pow2_of (kind : vector_kind) (y : R) : attempt pyfloat :=
  match kind with
  | PyList =>
      if Rlt_dec max_float (y ^ 2) then Failed OverflowError
      else Got (Finite (y ^ 2))
  | NpArray => Got (f64_mul (Finite y) (Finite y))
  end.

Definition item {A : Type} (l : list A) (i : nat) : attempt A :=
  match l !! i with
  | Some x => Got x
  | None => Failed (Raised IndexError)
  end.

Definition index64 (n : nat) (i : Z) : attempt nat :=
  match np_index n i with
  | Ok i' => Got i'
  | Raise e => Failed (Raised e)
  end.

(** A two-dimensional float64 array. *)
Record ndarray64 : Type := NdArray64 {
  nd64_rows : nat;
  nd64_cols : nat;
  nd64_data : list (list pyfloat)
}.

Definition np_zeros64 (n m : nat) : ndarray64 :=
  NdArray64 n m (replicate n (replicate m (Finite 0))).

Definition nd64_getitem (a : ndarray64) (i j : Z) : attempt pyfloat :=
  let* i' := index64 (nd64_rows a) i in
  let* j' := index64 (nd64_cols a) j in
  match nd64_data a !! i' ≫= (.!! j') with
  | Some v => Got v
  | None => Failed (Raised IndexError)
  end.

Definition nd64_setitem (a : ndarray64) (i j : Z) (v : pyfloat)
  : attempt ndarray64 :=
  let* i' := index64 (nd64_rows a) i in
  let* j' := index64 (nd64_cols a) j in
  Got (NdArray64 (nd64_rows a) (nd64_cols a)
                 (alter (<[j' := v]>) i' (nd64_data a))).

Definition nd64_min (a : ndarray64) : attempt pyfloat :=
  match concat (nd64_data a) with
  | [] => Failed (Raised ValueError)
  | v :: vs => Got (foldl f64_min v vs)
  end.

Definition nd64_column (a : ndarray64) (j : Z) : attempt (list pyfloat) :=
  let* j' := index64 (nd64_cols a) j in
  Got (omap (.!! j') (nd64_data a)).

Definition nd64_map (f : pyfloat -> pyfloat) (a : ndarray64) : ndarray64 :=
  NdArray64 (nd64_rows a) (nd64_cols a)
            ((fun row : list pyfloat => f <$> row) <$> nd64_data a).

(** A real array read as a float64 array. *)
Definition nd64_of (a : ndarray) : ndarray64 :=
  NdArray64 (nd_rows a) (nd_cols a)
            ((fun row : list R => Finite <$> row) <$> nd_data a).

Section RevolveFloat.

Variables (y_kind : vector_kind) (prof_2d y_axis : list R) (y_diam : R).

(** Lines 52-57 on floats. *)
Definition fill_cell64 (i_x : nat) (prof_3d : ndarray64) (i_y : nat)
  : attempt ndarray64 :=
  let sign_diam := Finite (np_sign y_diam) in
  let* p := item prof_2d i_x in
  let base := f64_sub (Finite (y_diam / 2)) (f64_mul sign_diam (Finite p)) in
  let square := f64_mul base base in
  let* y := item y_axis i_y in
  let* y_square := pow2_of y_kind y in
  let bracket := f64_sub square y_square in
  if f64_le0 bracket then
    nd64_setitem prof_3d (Z.of_nat i_x) (Z.of_nat i_y)
                 (Finite (Rabs y_diam / 2))
  else
    let* root := math_sqrt64 bracket in
    nd64_setitem prof_3d (Z.of_nat i_x) (Z.of_nat i_y)
                 (f64_sub (Finite (Rabs y_diam / 2)) (f64_mul sign_diam root)).

Definition fill_row64 (prof_3d : ndarray64) (i_x : nat) : attempt ndarray64 :=
  for_every (fill_cell64 i_x) (range (length y_axis)) prof_3d.

(** Lines 46-57 on floats. *)
Definition raw_grid64 : attempt ndarray64 :=
  let len_x := length prof_2d in
  let len_y := length y_axis in
  for_every fill_row64 (range len_x) (np_zeros64 len_x len_y).

(** Lines 58-61 on floats. *)
Definition min_prof64 (prof_3d : ndarray64) : attempt pyfloat :=
  let len_x := Z.of_nat (length prof_2d) in
  if Rlt_dec 0 y_diam then nd64_min prof_3d
  else nd64_getitem prof_3d (round_half len_x - 1) (round_half len_x - 1).

(** The whole function on floats. *)
Definition profrevolve64 : attempt (ndarray64 * list pyfloat) :=
  let len_y := Z.of_nat (length y_axis) in
  let* prof_3d := raw_grid64 in
  let* ref := min_prof64 prof_3d in
  let prof_3d := nd64_map (fun v => py_neg (f64_sub v ref)) prof_3d in
  let* y_profile := nd64_column prof_3d (floor_half len_y) in
  Got (nd64_map py_neg prof_3d, y_profile).

End RevolveFloat.

(** The inputs are finite floats whose squares in lines 52-53 stay within the
    float range. *)
Definition squares_in_range (prof_2d y_axis : list R) (y_diam : R) : Prop :=
  Rabs y_diam <= max_float /\
  Forall (fun p => (y_diam / 2 - np_sign y_diam * p) ^ 2 <= max_float) prof_2d /\
  Forall (fun y => y ^ 2 <= max_float) y_axis.

(** * Properties *)

(** ** Signs and square roots *)

Lemma np_sign_pos x : 0 < x -> np_sign x = 1.
Proof. intros H. unfold np_sign. destruct (Rlt_dec 0 x); [done | lra]. Qed.

Lemma np_sign_neg x : x < 0 -> np_sign x = -1.
Proof.
  intros H. unfold np_sign.
  destruct (Rlt_dec 0 x); [lra |]. destruct (Rlt_dec x 0); [done | lra].
Qed.

Lemma np_sign_zero : np_sign 0 = 0.
Proof.
  unfold np_sign.
  destruct (Rlt_dec 0 0); [lra |]. destruct (Rlt_dec 0 0); [lra | done].
Qed.

Lemma np_sign_cases x :
  (0 < x /\ np_sign x = 1) \/ (x = 0 /\ np_sign x = 0) \/ (x < 0 /\ np_sign x = -1).
Proof.
  destruct (Rtotal_order 0 x) as [H | [H | H]].
  - left. auto using np_sign_pos.
  - right; left. subst x. auto using np_sign_zero.
  - right; right. auto using np_sign_neg.
Qed.

Lemma np_sign_abs x : np_sign x * x = Rabs x.
Proof.
  destruct (np_sign_cases x) as [[H ->] | [[H ->] | [H ->]]].
  - rewrite Rabs_pos_eq; lra.
  - subst x. rewrite Rabs_R0. lra.
  - rewrite Rabs_left; lra.
Qed.

Lemma math_sqrt_nonneg x : 0 <= x -> math_sqrt x = Ok (sqrt x).
Proof. intros H. unfold math_sqrt. destruct (Rlt_dec x 0); [lra | done]. Qed.

Lemma np_sqrt_nonneg x : 0 <= x -> np_sqrt x = Num (sqrt x).
Proof. intros H. unfold np_sqrt. destruct (Rlt_dec x 0); [lra | done]. Qed.

Lemma sqrt_pow2_abs x : sqrt (x ^ 2) = Rabs x.
Proof. replace (x ^ 2) with (Rsqr x) by (unfold Rsqr; ring). apply sqrt_Rsqr_abs. Qed.

(** ** Indexing *)

Lemma np_index_nat n i : (i < n)%nat -> np_index n (Z.of_nat i) = Ok i.
Proof.
  intros H. unfold np_index.
  case_decide; [by rewrite Nat2Z.id | lia].
Qed.

Lemma getitem_Some {A} (l : list A) i x : l !! i = Some x -> getitem l i = Ok x.
Proof. intros H. unfold getitem. by rewrite H. Qed.

Lemma nd_cell_setitem a i j v i' j' :
  nd_wf a -> (i < nd_rows a)%nat -> (j < nd_cols a)%nat ->
  nd_cell (NdArray (nd_rows a) (nd_cols a) (alter (<[j := v]>) i (nd_data a))) i' j'
  = if decide (i' = i /\ j' = j) then Some v else nd_cell a i' j'.
Proof.
  intros [Hlen Hrows] Hi Hj. unfold nd_cell; simpl.
  destruct (decide (i = i')) as [<- | Hne].
  - rewrite list_lookup_alter_eq.
    destruct (lookup_lt_is_Some_2 (nd_data a) i) as [row Hrow]; [lia |].
    rewrite Hrow; simpl.
    assert (length row = nd_cols a) as Hr
      by apply (Forall_lookup_1 _ _ _ _ Hrows Hrow).
    destruct (decide (j = j')) as [<- | Hnej].
    + rewrite list_lookup_insert_eq by lia. by rewrite decide_True.
    + rewrite list_lookup_insert_ne by done.
      by rewrite decide_False by (intros [_ ?]; congruence).
  - rewrite list_lookup_alter_ne by done.
    by rewrite decide_False by (intros [? _]; congruence).
Qed.

Lemma nd_wf_setitem a i j v :
  nd_wf a -> nd_wf (NdArray (nd_rows a) (nd_cols a) (alter (<[j := v]>) i (nd_data a))).
Proof.
  intros [Hlen Hrows]. split; simpl.
  - by rewrite length_alter.
  - apply Forall_alter; [done |]. intros row _ Hrow. by rewrite length_insert.
Qed.

Lemma nd_wf_zeros n m : nd_wf (np_zeros n m).
Proof.
  split; simpl.
  - apply length_replicate.
  - apply Forall_replicate, length_replicate.
Qed.

Lemma nd_cell_outside a i j :
  nd_wf a -> (nd_cols a <= j)%nat -> nd_cell a i j = None.
Proof.
  intros [_ Hrows] Hj. unfold nd_cell.
  destruct (nd_data a !! i) as [row |] eqn:Erow; simpl; [| done].
  apply lookup_ge_None.
  rewrite (Forall_lookup_1 _ _ _ _ Hrows Erow). lia.
Qed.

(** Two well-formed arrays of one shape with the same cells are equal. *)
Lemma nd_ext a b :
  nd_wf a -> nd_wf b -> nd_rows a = nd_rows b -> nd_cols a = nd_cols b ->
  (forall i j, nd_cell a i j = nd_cell b i j) -> a = b.
Proof.
  destruct a as [n m da], b as [n' m' db]; simpl.
  intros [Hla Hra] [Hlb Hrb] -> -> Hcell; simpl in *. f_equal.
  apply list_eq; intros i.
  destruct (da !! i) as [ra |] eqn:Ea, (db !! i) as [rb |] eqn:Eb.
  - f_equal. apply list_eq; intros j.
    specialize (Hcell i j). unfold nd_cell in Hcell; simpl in Hcell.
    by rewrite Ea, Eb in Hcell.
  - apply lookup_lt_Some in Ea. apply lookup_ge_None in Eb. lia.
  - apply lookup_lt_Some in Eb. apply lookup_ge_None in Ea. lia.
  - done.
Qed.

(** ** The loops compute [grid_of] *)

Section Loops.

Variables (prof_2d y_axis : list R) (y_diam : R).

Lemma bracket_at_Some i_x i_y p y :
  prof_2d !! i_x = Some p -> y_axis !! i_y = Some y ->
  bracket_at prof_2d y_axis y_diam i_x i_y = Ok (bracket y_diam p y).
Proof.
  intros Hp Hy. unfold bracket_at.
  rewrite (getitem_Some _ _ _ Hp); simpl.
  by rewrite (getitem_Some _ _ _ Hy).
Qed.

(** One iteration of the inner loop stores [cell_value]; the call of
    [math.sqrt] is only reached with a positive bracket and cannot raise. *)
Lemma fill_cell_Some a i_x i_y p y :
  prof_2d !! i_x = Some p -> y_axis !! i_y = Some y ->
  (i_x < nd_rows a)%nat -> (i_y < nd_cols a)%nat ->
  fill_cell prof_2d y_axis y_diam i_x a i_y
  = Ok (NdArray (nd_rows a) (nd_cols a)
                (alter (<[i_y := cell_value y_diam p y]>) i_x (nd_data a))).
Proof.
  intros Hp Hy Hi Hj. unfold fill_cell, cell_value.
  rewrite (bracket_at_Some _ _ _ _ Hp Hy); simpl.
  unfold nd_setitem.
  destruct (Rle_dec (bracket y_diam p y) 0) as [Hb | Hb].
  - by rewrite !np_index_nat.
  - rewrite math_sqrt_nonneg by lra; simpl. by rewrite !np_index_nat.
Qed.

Lemma fill_cells_spec i_x p c :
  prof_2d !! i_x = Some p ->
  forall j0 a,
    nd_wf a -> (i_x < nd_rows a)%nat -> nd_cols a = length y_axis ->
    (j0 + c <= length y_axis)%nat ->
    exists a',
      for_each (fill_cell prof_2d y_axis y_diam i_x) (seq j0 c) a = Ok a' /\
      nd_wf a' /\ nd_rows a' = nd_rows a /\ nd_cols a' = nd_cols a /\
      forall i j,
        nd_cell a' i j =
        if decide (i = i_x /\ (j0 <= j < j0 + c)%nat)
        then cell_value y_diam p <$> y_axis !! j
        else nd_cell a i j.
Proof.
  intros Hp. induction c as [| c IH]; intros j0 a Hwf Hi Hcols Hle; simpl.
  - exists a. repeat split; try done; try apply Hwf.
    intros i j. rewrite decide_False; [done | lia].
  - destruct (lookup_lt_is_Some_2 y_axis j0) as [y Hy]; [lia |].
    rewrite (fill_cell_Some a i_x j0 p y) by (done || lia); simpl.
    set (a1 := NdArray _ _ _).
    destruct (IH (S j0) a1) as (a' & Hrun & Hwf' & Hr & Hc & Hcell);
      [by apply nd_wf_setitem | done | done | lia |].
    exists a'. repeat split; try done; try apply Hwf'.
    intros i j. rewrite Hcell. subst a1.
    rewrite nd_cell_setitem by (done || lia).
    repeat case_decide; try done; try lia.
    destruct_and!; subst. by rewrite Hy.
Qed.

Lemma fill_row_spec a i_x p :
  prof_2d !! i_x = Some p ->
  nd_wf a -> (i_x < nd_rows a)%nat -> nd_cols a = length y_axis ->
  exists a',
    fill_row prof_2d y_axis y_diam a i_x = Ok a' /\
    nd_wf a' /\ nd_rows a' = nd_rows a /\ nd_cols a' = nd_cols a /\
    forall i j,
      nd_cell a' i j =
      if decide (i = i_x) then cell_value y_diam p <$> y_axis !! j
      else nd_cell a i j.
Proof.
  intros Hp Hwf Hi Hcols.
  destruct (fill_cells_spec i_x p (length y_axis) Hp 0%nat a)
    as (a' & Hrun & Hwf' & Hr & Hc & Hcell); try done.
  exists a'. repeat split; try done; try apply Hwf'.
  intros i j. rewrite Hcell.
  destruct (decide (i = i_x)) as [-> | Hne].
  - destruct (y_axis !! j) as [y |] eqn:Ej.
    + apply lookup_lt_Some in Ej. by rewrite decide_True by lia.
    + apply lookup_ge_None in Ej. rewrite decide_False by lia.
      apply nd_cell_outside; [done | lia].
  - by rewrite decide_False by tauto.
Qed.

Lemma fill_rows_spec c :
  forall i0 a,
    nd_wf a -> nd_rows a = length prof_2d -> nd_cols a = length y_axis ->
    (i0 + c <= length prof_2d)%nat ->
    exists a',
      for_each (fill_row prof_2d y_axis y_diam) (seq i0 c) a = Ok a' /\
      nd_wf a' /\ nd_rows a' = nd_rows a /\ nd_cols a' = nd_cols a /\
      forall i j,
        nd_cell a' i j =
        if decide (i0 <= i < i0 + c)%nat
        then prof_2d !! i ≫= fun p => cell_value y_diam p <$> y_axis !! j
        else nd_cell a i j.
Proof.
  induction c as [| c IH]; intros i0 a Hwf Hrows Hcols Hle; simpl.
  - exists a. repeat split; try done; try apply Hwf.
    intros i j. by rewrite decide_False by lia.
  - destruct (lookup_lt_is_Some_2 prof_2d i0) as [p Hp]; [lia |].
    destruct (fill_row_spec a i0 p Hp) as (a1 & -> & Hwf1 & Hr1 & Hc1 & Hcell1);
      [done | lia | done |]; simpl.
    destruct (IH (S i0) a1) as (a' & Hrun & Hwf' & Hr & Hc & Hcell);
      [done | congruence | congruence | lia |].
    exists a'. repeat split; try congruence; try apply Hwf'.
    intros i j. rewrite Hcell, Hcell1.
    destruct (decide (i = i0)) as [-> | Hne].
    + rewrite decide_False by lia. rewrite decide_True by lia. by rewrite Hp.
    + destruct (decide (S i0 <= i < S i0 + c)%nat).
      * by rewrite decide_True by lia.
      * by rewrite decide_False by lia.
Qed.

Lemma nd_wf_grid_of : nd_wf (grid_of prof_2d y_axis y_diam).
Proof.
  split; simpl.
  - by rewrite length_fmap.
  - apply Forall_fmap, Forall_forall. intros p _. simpl. by rewrite length_fmap.
Qed.

Lemma nd_cell_grid_of i j :
  nd_cell (grid_of prof_2d y_axis y_diam) i j
  = prof_2d !! i ≫= fun p => cell_value y_diam p <$> y_axis !! j.
Proof.
  unfold nd_cell; simpl. rewrite list_lookup_fmap.
  destruct (prof_2d !! i); simpl; [| done]. by rewrite list_lookup_fmap.
Qed.

(** The nested loops never raise, and leave [grid_of] in [prof_3d]. *)
Lemma raw_grid_eq :
  raw_grid prof_2d y_axis y_diam = Ok (grid_of prof_2d y_axis y_diam).
Proof.
  unfold raw_grid, range.
  destruct (fill_rows_spec (length prof_2d) 0%nat
              (np_zeros (length prof_2d) (length y_axis)))
    as (a' & -> & Hwf' & Hr & Hc & Hcell);
    [apply nd_wf_zeros | done | done | lia |].
  f_equal. apply nd_ext; try done.
  - apply nd_wf_grid_of.
  - intros i j. rewrite Hcell, nd_cell_grid_of.
    destruct (prof_2d !! i) as [p |] eqn:Ei.
    + apply lookup_lt_Some in Ei. by rewrite decide_True by lia.
    + apply lookup_ge_None in Ei. rewrite decide_False by lia. simpl.
      unfold nd_cell; simpl.
      assert (replicate (length prof_2d) (replicate (length y_axis) 0) !! i = None)
        as -> by (apply lookup_replicate_None; lia).
      done.
Qed.

End Loops.

(** ** Reading the raw grid *)

Lemma nd_getitem_grid_of prof_2d y_axis y_diam i j p y :
  prof_2d !! i = Some p -> y_axis !! j = Some y ->
  nd_getitem (grid_of prof_2d y_axis y_diam) (Z.of_nat i) (Z.of_nat j)
  = Ok (cell_value y_diam p y).
Proof.
  intros Hp Hy. unfold nd_getitem; simpl.
  rewrite np_index_nat by (by eapply lookup_lt_Some); simpl.
  rewrite np_index_nat by (by eapply lookup_lt_Some); simpl.
  rewrite nd_cell_grid_of, Hp; simpl. by rewrite Hy.
Qed.

Lemma Rabs_minus4 : Rabs (-4) = 4.
Proof. rewrite Rabs_left; lra. Qed.

(** ** C1: the bracket *)

(** C1, as stated, fails: for the diameter -4, the height 1 and the
    coordinate 0 the loop computes the bracket (-2 + 1)² - 0² = 1, where the
    formula with [|y_diam| / 2] gives (2 + 1)² - 0² = 9. *)
Lemma bracket_at_not_spec :
  bracket_at [1] [0] (-4) 0 0 = Ok 1 /\
  bracket_spec (-4) 1 0 = 9 /\
  bracket_at [1] [0] (-4) 0 0 <> Ok (bracket_spec (-4) 1 0).
Proof.
  assert (bracket_at [1] [0] (-4) 0 0 = Ok 1) as Hcode.
  { rewrite (bracket_at_Some [1] [0] (-4) 0 0 1 0) by done.
    unfold bracket. rewrite np_sign_neg by lra. f_equal. lra. }
  assert (bracket_spec (-4) 1 0 = 9) as Hspec.
  { unfold bracket_spec. rewrite np_sign_neg by lra. rewrite Rabs_minus4. lra. }
  repeat split; try done.
  rewrite Hcode, Hspec. intros [=]. lra.
Qed.

(** C1 (amended): for every pair of indices over [prof_2d] and [y_axis] the
    bracket the loop computes is
    (y_diam/2 - sign(y_diam) * prof_2d[ix])² - y_axis[iy]², with the signed
    half diameter.  That is the formula of the specification whenever
    [y_diam >= 0]; for [y_diam < 0] it is
    (|y_diam|/2 - prof_2d[ix])² - y_axis[iy]². *)
Theorem bracket_at_value prof_2d y_axis y_diam ix iy p y :
  prof_2d !! ix = Some p -> y_axis !! iy = Some y ->
  bracket_at prof_2d y_axis y_diam ix iy
  = Ok ((y_diam / 2 - np_sign y_diam * p) ^ 2 - y ^ 2) /\
  (0 <= y_diam ->
   bracket_at prof_2d y_axis y_diam ix iy = Ok (bracket_spec y_diam p y)) /\
  (y_diam < 0 ->
   bracket_at prof_2d y_axis y_diam ix iy
   = Ok ((Rabs y_diam / 2 - p) ^ 2 - y ^ 2)).
Proof.
  intros Hp Hy. rewrite (bracket_at_Some _ _ _ _ _ _ _ Hp Hy).
  unfold bracket, bracket_spec. repeat split.
  - intros Hd. by rewrite (Rabs_pos_eq y_diam Hd).
  - intros Hd. rewrite np_sign_neg, Rabs_left by done. f_equal. lra.
Qed.

Lemma bracket_at_value_witness :
  [1] !! 0%nat = Some 1 /\ [0] !! 0%nat = Some 0 /\
  bracket_at [1] [0] (-4) 0 0 = Ok ((-4 / 2 - np_sign (-4) * 1) ^ 2 - 0 ^ 2).
Proof.
  split; [reflexivity |]. split; [reflexivity |].
  apply (bracket_at_value [1] [0] (-4) 0 0 1 0); reflexivity.
Defined.

(** ** C2: the clamp and the root *)

(** C2: the loops raise nothing, and every cell [(ix, iy)] of the grid they
    leave holds [|y_diam| / 2] when the bracket of that cell is at most 0 and
    [|y_diam| / 2 - sign(y_diam) * sqrt(bracket)] when it is positive. *)
Theorem raw_grid_cell prof_2d y_axis y_diam ix iy :
  (ix < length prof_2d)%nat -> (iy < length y_axis)%nat ->
  exists raw b,
    raw_grid prof_2d y_axis y_diam = Ok raw /\
    bracket_at prof_2d y_axis y_diam ix iy = Ok b /\
    (b <= 0 ->
     nd_getitem raw (Z.of_nat ix) (Z.of_nat iy) = Ok (Rabs y_diam / 2)) /\
    (0 < b ->
     nd_getitem raw (Z.of_nat ix) (Z.of_nat iy)
     = Ok (Rabs y_diam / 2 - np_sign y_diam * sqrt b)).
Proof.
  intros Hix Hiy.
  destruct (lookup_lt_is_Some_2 prof_2d ix Hix) as [p Hp].
  destruct (lookup_lt_is_Some_2 y_axis iy Hiy) as [y Hy].
  exists (grid_of prof_2d y_axis y_diam), (bracket y_diam p y).
  split; [apply raw_grid_eq |]. split; [by apply bracket_at_Some |].
  rewrite (nd_getitem_grid_of _ _ _ _ _ _ _ Hp Hy). unfold cell_value.
  split; intros Hb; destruct (Rle_dec (bracket y_diam p y) 0); (done || lra).
Qed.

Lemma raw_grid_cell_witness :
  exists raw b,
    raw_grid [1] [0] (-4) = Ok raw /\
    bracket_at [1] [0] (-4) 0 0 = Ok b /\
    (b <= 0 -> nd_getitem raw 0 0 = Ok (Rabs (-4) / 2)) /\
    (0 < b -> nd_getitem raw 0 0 = Ok (Rabs (-4) / 2 - np_sign (-4) * sqrt b)).
Proof.
  apply (raw_grid_cell [1] [0] (-4) 0 0); simpl; lia.
Defined.

(** ** The minimum of a grid *)

Lemma foldl_Rmin_le vs : forall v, foldl Rmin v vs <= v.
Proof.
  induction vs as [| x vs IH]; intros v; simpl; [lra |].
  etransitivity; [apply IH | apply Rmin_l].
Qed.

Lemma foldl_Rmin_lower vs : forall v x, x ∈ v :: vs -> foldl Rmin v vs <= x.
Proof.
  induction vs as [| w vs IH]; intros v x Hx; simpl.
  - apply list_elem_of_singleton in Hx. subst. lra.
  - apply elem_of_cons in Hx as [-> | Hx].
    + etransitivity; [apply foldl_Rmin_le | apply Rmin_l].
    + apply elem_of_cons in Hx as [-> | Hx].
      * etransitivity; [apply foldl_Rmin_le | apply Rmin_r].
      * apply IH. by right.
Qed.

Lemma foldl_Rmin_elem vs : forall v, foldl Rmin v vs ∈ v :: vs.
Proof.
  induction vs as [| w vs IH]; intros v; simpl; [by left |].
  specialize (IH (Rmin v w)).
  apply elem_of_cons in IH as [-> | IH]; [| by do 2 right].
  unfold Rmin. destruct (Rle_dec v w); [by left | right; by left].
Qed.

(** [a.min()] returns a least cell of a non-empty array. *)
Lemma nd_min_spec a :
  concat (nd_data a) <> [] ->
  exists m, nd_min a = Ok m /\
            m ∈ concat (nd_data a) /\
            forall v, v ∈ concat (nd_data a) -> m <= v.
Proof.
  intros Hne. unfold nd_min.
  destruct (concat (nd_data a)) as [| v vs]; [done |].
  exists (foldl Rmin v vs). split; [done |].
  split; [apply foldl_Rmin_elem | apply foldl_Rmin_lower].
Qed.

Lemma nd_min_empty a : concat (nd_data a) = [] -> nd_min a = Raise ValueError.
Proof. intros H. unfold nd_min. by rewrite H. Qed.

Lemma concat_grid_nonempty prof_2d y_axis y_diam :
  prof_2d <> [] -> y_axis <> [] ->
  concat (nd_data (grid_of prof_2d y_axis y_diam)) <> [].
Proof.
  intros Hp Hy. destruct prof_2d as [| p ps]; [done |].
  destruct y_axis as [| y ys]; [done |]. done.
Qed.

Lemma concat_grid_empty_rows prof_2d y_diam :
  concat (nd_data (grid_of prof_2d [] y_diam)) = [].
Proof. simpl. induction prof_2d as [| p ps IH]; simpl; done. Qed.

Lemma concat_fmap_rows (f : R -> R) (rows : list (list R)) :
  concat ((fun row : list R => f <$> row) <$> rows) = f <$> concat rows.
Proof.
  induction rows as [| row rows IH]; csimpl; [done |].
  by rewrite fmap_app, IH.
Qed.

(** ** Rounding a half *)

Lemma round_half_floor n :
  (0 <= n)%Z ->
  round_half n = if decide (n mod 4 = 3)%Z then (floor_half n + 1)%Z
                 else floor_half n.
Proof.
  intros Hn. unfold round_half, floor_half.
  pose proof (Zmod_even n) as En. pose proof (Zmod_even (n / 2)) as Eq.
  destruct (Z.even n), (Z.even (n / 2)); case_decide;
    Z.div_mod_to_equations; lia.
Qed.

(** ** C3: the reference value *)

Lemma cell_value_clamped y_diam p y :
  bracket y_diam p y <= 0 -> cell_value y_diam p y = Rabs y_diam / 2.
Proof. intros H. unfold cell_value. by destruct (Rle_dec _ 0). Qed.

Lemma cell_value_root y_diam p y :
  0 < bracket y_diam p y ->
  cell_value y_diam p y
  = Rabs y_diam / 2 - np_sign y_diam * sqrt (bracket y_diam p y).
Proof. intros H. unfold cell_value. destruct (Rle_dec _ 0); [lra | done]. Qed.

Lemma min_prof_concave prof_2d y_diam a :
  y_diam <= 0 ->
  min_prof prof_2d y_diam a
  = nd_getitem a (round_half (Z.of_nat (length prof_2d)) - 1)
                 (round_half (Z.of_nat (length prof_2d)) - 1).
Proof. intros H. unfold min_prof. destruct (Rlt_dec 0 y_diam); [lra | done]. Qed.

Lemma min_prof_convex prof_2d y_diam a :
  0 < y_diam -> min_prof prof_2d y_diam a = nd_min a.
Proof. intros H. unfold min_prof. destruct (Rlt_dec 0 y_diam); [done | lra]. Qed.

(** C3, as stated, fails: with three profile points, the diameter -2 and the
    raw grid [[1,1,1],[3,3,3],[1,1,1]], the reference is the cell (1, 1),
    which holds 3, because [round(3 / 2)] is 2; the cell
    (floor(3/2) - 1, floor(3/2) - 1) = (0, 0) holds 1. *)
Lemma min_prof_not_floor :
  exists raw,
    raw_grid [1; 3; 1] [0; 0; 0] (-2) = Ok raw /\
    min_prof [1; 3; 1] (-2) raw = Ok 3 /\
    nd_getitem raw (floor_half 3 - 1) (floor_half 3 - 1) = Ok 1 /\
    min_prof [1; 3; 1] (-2) raw
    <> nd_getitem raw (floor_half 3 - 1) (floor_half 3 - 1).
Proof.
  assert (Rabs (-2) = 2) as Habs by (rewrite Rabs_left; lra).
  assert (cell_value (-2) 3 0 = 3) as Hmid.
  { assert (bracket (-2) 3 0 = 2 * 2) as Hb
      by (unfold bracket; rewrite np_sign_neg by lra; lra).
    rewrite cell_value_root by (rewrite Hb; lra).
    rewrite Hb, sqrt_square, np_sign_neg, Habs by lra. lra. }
  assert (cell_value (-2) 1 0 = 1) as Hcorner.
  { rewrite cell_value_clamped.
    - rewrite Habs. lra.
    - unfold bracket. rewrite np_sign_neg by lra. lra. }
  exists (grid_of [1; 3; 1] [0; 0; 0] (-2)).
  assert (min_prof [1; 3; 1] (-2) (grid_of [1; 3; 1] [0; 0; 0] (-2)) = Ok 3)
    as Href.
  { rewrite min_prof_concave by lra.
    replace (round_half (Z.of_nat (length [1; 3; 1])) - 1)%Z with (Z.of_nat 1)
      by reflexivity.
    rewrite (nd_getitem_grid_of _ _ _ 1 1 3 0) by done. by rewrite Hmid. }
  assert (nd_getitem (grid_of [1; 3; 1] [0; 0; 0] (-2))
                     (floor_half 3 - 1) (floor_half 3 - 1) = Ok 1) as Hfloor.
  { replace (floor_half 3 - 1)%Z with (Z.of_nat 0) by reflexivity.
    rewrite (nd_getitem_grid_of _ _ _ 0 0 1 0) by done. by rewrite Hcorner. }
  split; [apply raw_grid_eq |]. split; [done |]. split; [done |].
  rewrite Href, Hfloor. intros [=]. lra.
Qed.

(** C3 (amended): on the raw grid of non-empty inputs the reference is the
    global minimum when [y_diam > 0]; when [y_diam <= 0] it is the cell read
    at index (k, k) with k = round(len_x / 2) - 1, [len_x = len(prof_2d)]
    being used for both dimensions and [round] rounding a half to the even
    neighbour: k is floor(len_x/2) - 1 unless len_x = 3 modulo 4, where it
    is floor(len_x/2). *)
Theorem min_prof_reference prof_2d y_axis y_diam :
  let len_x := Z.of_nat (length prof_2d) in
  exists raw,
    raw_grid prof_2d y_axis y_diam = Ok raw /\
    (0 < y_diam -> prof_2d <> [] -> y_axis <> [] ->
     exists m, min_prof prof_2d y_diam raw = Ok m /\
               m ∈ concat (nd_data raw) /\
               forall v, v ∈ concat (nd_data raw) -> m <= v) /\
    (y_diam <= 0 ->
     min_prof prof_2d y_diam raw
     = nd_getitem raw (round_half len_x - 1) (round_half len_x - 1)) /\
    (round_half len_x - 1 =
     if decide (len_x mod 4 = 3) then floor_half len_x
     else floor_half len_x - 1)%Z.
Proof.
  intros len_x. exists (grid_of prof_2d y_axis y_diam).
  split; [apply raw_grid_eq |]. repeat split.
  - intros Hd Hp Hy. rewrite min_prof_convex by done.
    by apply nd_min_spec, concat_grid_nonempty.
  - apply min_prof_concave.
  - rewrite round_half_floor by lia. case_decide; lia.
Qed.

Lemma min_prof_reference_witness :
  exists raw,
    raw_grid [0] [0] 1 = Ok raw /\
    exists m, min_prof [0] 1 raw = Ok m /\
              m ∈ concat (nd_data raw) /\
              forall v, v ∈ concat (nd_data raw) -> m <= v.
Proof.
  destruct (min_prof_reference [0] [0] 1) as (raw & Hraw & Hmin & _).
  exists raw. split; [exact Hraw |]. apply Hmin; [lra | done | done].
Defined.

(** ** When the reference cell exists *)

Lemma np_index_inside n i :
  (- Z.of_nat n <= i < Z.of_nat n)%Z ->
  exists i', np_index n i = Ok i' /\ (i' < n)%nat.
Proof.
  intros Hi. unfold np_index. case_decide.
  - exists (Z.to_nat i). split; [done | lia].
  - rewrite decide_True by lia. exists (Z.to_nat (i + Z.of_nat n)). split; [done | lia].
Qed.

Lemma np_index_outside n i :
  ~ (- Z.of_nat n <= i < Z.of_nat n)%Z -> np_index n i = Raise IndexError.
Proof.
  intros Hi. unfold np_index.
  rewrite decide_False by lia. by rewrite decide_False by lia.
Qed.

Lemma nd_getitem_grid_inside prof_2d y_axis y_diam i j :
  (- Z.of_nat (length prof_2d) <= i < Z.of_nat (length prof_2d))%Z ->
  (- Z.of_nat (length y_axis) <= j < Z.of_nat (length y_axis))%Z ->
  exists v, nd_getitem (grid_of prof_2d y_axis y_diam) i j = Ok v.
Proof.
  intros Hi Hj. unfold nd_getitem; simpl.
  destruct (np_index_inside _ _ Hi) as (i' & -> & Hi').
  destruct (np_index_inside _ _ Hj) as (j' & -> & Hj'). simpl.
  rewrite nd_cell_grid_of.
  destruct (lookup_lt_is_Some_2 _ _ Hi') as [p ->].
  destruct (lookup_lt_is_Some_2 _ _ Hj') as [y ->]. simpl. eauto.
Qed.

Lemma nd_getitem_outside a i j :
  ~ ((- Z.of_nat (nd_rows a) <= i < Z.of_nat (nd_rows a))%Z /\
     (- Z.of_nat (nd_cols a) <= j < Z.of_nat (nd_cols a))%Z) ->
  nd_getitem a i j = Raise IndexError.
Proof.
  intros H. unfold nd_getitem.
  destruct (decide (- Z.of_nat (nd_rows a) <= i < Z.of_nat (nd_rows a))%Z) as [Hi | Hi].
  - destruct (np_index_inside _ _ Hi) as (i' & -> & _); simpl.
    rewrite np_index_outside; [done | tauto].
  - by rewrite np_index_outside.
Qed.

(** The reference lookup on the raw grid: it succeeds exactly on non-empty
    inputs whose reference cell exists. *)
Lemma min_prof_grid_cases prof_2d y_axis y_diam :
  let raw := grid_of prof_2d y_axis y_diam in
  (prof_2d <> [] /\ y_axis <> [] /\
   (0 < y_diam \/ ref_cell_exists (length prof_2d) (length y_axis)) /\
   exists ref, min_prof prof_2d y_diam raw = Ok ref)
  \/
  ((prof_2d = [] \/ y_axis = [] \/
    (y_diam <= 0 /\ ~ ref_cell_exists (length prof_2d) (length y_axis))) /\
   min_prof prof_2d y_diam raw
   = Raise (if Rlt_dec 0 y_diam then ValueError else IndexError)).
Proof.
  intros raw. unfold min_prof. destruct (Rlt_dec 0 y_diam) as [Hd | Hd].
  - destruct prof_2d as [| p ps]; [right; split; [by left | done] |].
    destruct y_axis as [| y ys].
    + right. split; [right; by left |].
      apply nd_min_empty, concat_grid_empty_rows.
    + left. repeat split; try done; [by left |].
      destruct (nd_min_spec raw) as (m & Hm & _); [done | eauto].
  - destruct (decide (ref_cell_exists (length prof_2d) (length y_axis)))
      as [Hk | Hk].
    + left. destruct Hk as [Hkx Hky].
      split; [intros ->; simpl in *; lia |].
      split; [intros ->; simpl in *; lia |].
      split; [by right |]. by apply nd_getitem_grid_inside.
    + right. split; [do 2 right; split; [lra | done] |].
      by apply nd_getitem_outside.
Qed.

(** ** The centre column *)

Lemma floor_half_nat n : floor_half (Z.of_nat n) = Z.of_nat (n / 2).
Proof. unfold floor_half. by rewrite Nat2Z.inj_div. Qed.

Lemma centre_lookup (y_axis : list R) :
  y_axis <> [] -> exists y, y_axis !! (length y_axis / 2)%nat = Some y.
Proof.
  intros Hy. apply lookup_lt_is_Some_2.
  destruct y_axis; [done |]. simpl length. apply Nat.div_lt; lia.
Qed.

Lemma omap_column (f : R -> R) (prof_2d y_axis : list R) y_diam j y :
  y_axis !! j = Some y ->
  omap (.!! j)
       ((fun row : list R => f <$> row)
          <$> ((fun p => cell_value y_diam p <$> y_axis) <$> prof_2d))
  = (fun p => f (cell_value y_diam p y)) <$> prof_2d.
Proof.
  intros Hy. induction prof_2d as [| p ps IH]; csimpl; [done |].
  rewrite !list_lookup_fmap, Hy; simpl. by rewrite IH.
Qed.

Lemma nd_column_centre f prof_2d y_axis y_diam y :
  y_axis !! (length y_axis / 2)%nat = Some y ->
  nd_column (nd_map f (grid_of prof_2d y_axis y_diam))
            (floor_half (Z.of_nat (length y_axis)))
  = Ok ((fun p => f (cell_value y_diam p y)) <$> prof_2d).
Proof.
  intros Hy. unfold nd_column; simpl.
  rewrite floor_half_nat, np_index_nat by (by eapply lookup_lt_Some); simpl.
  by rewrite (omap_column f _ _ _ _ _ Hy).
Qed.

Lemma nd_map_map f g a : nd_map f (nd_map g a) = nd_map (f ∘ g) a.
Proof.
  unfold nd_map; simpl. f_equal.
  rewrite <- list_fmap_compose. apply list_fmap_ext. intros _ row _. simpl.
  by rewrite <- list_fmap_compose.
Qed.

Lemma nd_map_ext f g a : (forall v, f v = g v) -> nd_map f a = nd_map g a.
Proof.
  intros H. unfold nd_map. f_equal.
  apply list_fmap_ext. intros _ row _. apply list_fmap_ext. auto.
Qed.

Lemma nd_wf_map f a : nd_wf a -> nd_wf (nd_map f a).
Proof.
  intros [Hlen Hrows]. split; simpl.
  - by rewrite length_fmap.
  - apply Forall_fmap. eapply Forall_impl; [exact Hrows |].
    intros row Hrow. simpl. by rewrite length_fmap.
Qed.

(** The computation after the loops, once the reference is known. *)
Lemma profrevolve_run prof_2d y_axis y_diam ref y :
  min_prof prof_2d y_diam (grid_of prof_2d y_axis y_diam) = Ok ref ->
  y_axis !! (length y_axis / 2)%nat = Some y ->
  profrevolve prof_2d y_axis y_diam
  = Ok (nd_map (fun v => v - ref) (grid_of prof_2d y_axis y_diam),
        (fun p => - (cell_value y_diam p y - ref)) <$> prof_2d).
Proof.
  intros Href Hy. unfold profrevolve.
  rewrite raw_grid_eq; simpl. rewrite Href; simpl.
  rewrite (nd_column_centre _ _ _ _ _ Hy); simpl.
  rewrite nd_map_map. do 2 f_equal.
  apply nd_map_ext. intros v. simpl. lra.
Qed.

Lemma profrevolve_raise prof_2d y_axis y_diam e :
  min_prof prof_2d y_diam (grid_of prof_2d y_axis y_diam) = Raise e ->
  profrevolve prof_2d y_axis y_diam = Raise e.
Proof.
  intros Href. unfold profrevolve. rewrite raw_grid_eq; simpl. by rewrite Href.
Qed.

(** ** C4: the two outputs *)

Lemma nd_getitem_map_grid f prof_2d y_axis y_diam i j p y :
  prof_2d !! i = Some p -> y_axis !! j = Some y ->
  nd_getitem (nd_map f (grid_of prof_2d y_axis y_diam)) (Z.of_nat i) (Z.of_nat j)
  = Ok (f (cell_value y_diam p y)).
Proof.
  intros Hp Hy. unfold nd_getitem, nd_map, grid_of. cbn [nd_rows nd_cols].
  rewrite np_index_nat by (by eapply lookup_lt_Some). cbn [bind].
  rewrite np_index_nat by (by eapply lookup_lt_Some). cbn [bind].
  unfold nd_cell. cbn [nd_data].
  rewrite !list_lookup_fmap, Hp. cbn [fmap option_fmap option_map mbind option_bind].
  by rewrite !list_lookup_fmap, Hy.
Qed.

(** C4: whenever [profrevolve] returns, its first output is the negation of
    the normalised grid [final = -(raw - reference)], that is
    [raw - reference], cell by cell; its second output is the column of
    [final] itself at [iy = floor(len(y_axis) / 2)], holding
    [-(raw[ix, iy] - reference)]; the first output has shape
    [(len(prof_2d), len(y_axis))] and the second has length [len(prof_2d)].
    It returns on all inputs but those listed in the last branch. *)
Theorem profrevolve_outputs prof_2d y_axis y_diam :
  match profrevolve prof_2d y_axis y_diam with
  | Ok (grid, y_profile) =>
      exists raw ref,
        raw_grid prof_2d y_axis y_diam = Ok raw /\
        min_prof prof_2d y_diam raw = Ok ref /\
        let final := nd_map (fun v => - (v - ref)) raw in
        grid = nd_map Ropp final /\
        grid = nd_map (fun v => v - ref) raw /\
        nd_column final (floor_half (Z.of_nat (length y_axis))) = Ok y_profile /\
        nd_wf grid /\
        nd_rows grid = length prof_2d /\ nd_cols grid = length y_axis /\
        length y_profile = length prof_2d /\
        nd_data grid
        = (fun row : list R => (fun v => v - ref) <$> row) <$> nd_data raw /\
        (forall ix iy,
            (ix < length prof_2d)%nat -> (iy < length y_axis)%nat ->
            exists v,
              nd_getitem raw (Z.of_nat ix) (Z.of_nat iy) = Ok v /\
              nd_getitem final (Z.of_nat ix) (Z.of_nat iy) = Ok (- (v - ref)) /\
              nd_getitem grid (Z.of_nat ix) (Z.of_nat iy) = Ok (v - ref)) /\
        (forall ix,
            (ix < length prof_2d)%nat ->
            exists v,
              nd_getitem raw (Z.of_nat ix)
                         (floor_half (Z.of_nat (length y_axis))) = Ok v /\
              y_profile !! ix = Some (- (v - ref)))
  | Raise _ =>
      prof_2d = [] \/ y_axis = [] \/
      (y_diam <= 0 /\ ~ ref_cell_exists (length prof_2d) (length y_axis))
  end.
Proof.
  destruct (min_prof_grid_cases prof_2d y_axis y_diam)
    as [(Hp & Hy & _ & ref & Href) | (Hcases & Href)].
  - destruct (centre_lookup y_axis Hy) as [y Hmid].
    rewrite (profrevolve_run _ _ _ _ _ Href Hmid).
    exists (grid_of prof_2d y_axis y_diam), ref.
    split; [apply raw_grid_eq |]. split; [done |]. cbv zeta.
    split; [| split; [done |]].
    { rewrite nd_map_map. apply nd_map_ext. intros v. simpl. lra. }
    split; [by apply (nd_column_centre (fun v => - (v - ref))) |].
    split; [apply nd_wf_map, nd_wf_grid_of |].
    split; [done |]. split; [done |].
    split; [by rewrite length_fmap |]. split; [done |]. split.
    + intros ix iy Hix Hiy.
      destruct (lookup_lt_is_Some_2 prof_2d ix Hix) as [p Hpx].
      destruct (lookup_lt_is_Some_2 y_axis iy Hiy) as [y' Hyy].
      exists (cell_value y_diam p y').
      split; [by apply nd_getitem_grid_of |].
      split; [by apply (nd_getitem_map_grid (fun v => - (v - ref))) |].
      by apply (nd_getitem_map_grid (fun v => v - ref)).
    + intros ix Hix.
      destruct (lookup_lt_is_Some_2 prof_2d ix Hix) as [p Hpx].
      exists (cell_value y_diam p y). split.
      * rewrite floor_half_nat. by apply nd_getitem_grid_of.
      * by rewrite list_lookup_fmap, Hpx.
  - by rewrite (profrevolve_raise _ _ _ _ Href).
Qed.

Lemma profrevolve_outputs_witness :
  exists grid y_profile raw ref v,
    profrevolve [1] [0] 4 = Ok (grid, y_profile) /\
    raw_grid [1] [0] 4 = Ok raw /\
    min_prof [1] 4 raw = Ok ref /\
    nd_rows grid = 1%nat /\ nd_cols grid = 1%nat /\
    nd_getitem raw 0 0 = Ok v /\
    nd_getitem grid 0 0 = Ok (v - ref) /\
    y_profile !! 0%nat = Some (- (v - ref)).
Proof.
  pose proof (profrevolve_outputs [1] [0] 4) as H.
  destruct (profrevolve [1] [0] 4) as [[grid y_profile] | e].
  - destruct H as (raw & ref & Hraw & Href & _ & _ & _ & _ & Hr & Hc & _ & _
                   & Hcell & Hcol).
    destruct (Hcell 0%nat 0%nat) as (v & Hv & _ & Hg); [simpl; lia | simpl; lia |].
    destruct (Hcol 0%nat) as (v' & Hv' & Hy); [simpl; lia |].
    change (floor_half (Z.of_nat (length [0]))) with (Z.of_nat 0) in Hv'.
    rewrite Hv in Hv'. injection Hv' as <-.
    exists grid, y_profile, raw, ref, v. done.
  - exfalso. destruct H as [H | [H | [H _]]]; [done | done | lra].
Defined.

(** ** Exceptions of the real model *)

(** Four profile points, one coordinate and the diameter -1 make the
    reference lookup read [prof_3d[1, 1]] in a grid of shape (4, 1), an
    IndexError; an empty profile with a positive diameter makes
    [prof_3d.min()] raise ValueError on a grid of shape (0, 2). *)
Lemma profrevolve_raises :
  profrevolve [0; 0; 0; 0] [0] (-1) = Raise IndexError /\
  profrevolve [] [0; 1] 2 = Raise ValueError.
Proof.
  split; apply profrevolve_raise.
  - rewrite min_prof_concave by lra. apply nd_getitem_outside.
    intros [_ [_ Hcol]]. vm_compute in Hcol. done.
  - rewrite min_prof_convex by lra. by apply nd_min_empty.
Qed.

(** In real arithmetic the loops raise nothing, [math.sqrt] being reached
    with a positive bracket only, and the function returns on non-empty
    inputs whose reference value exists. *)
Lemma profrevolve_returns prof_2d y_axis y_diam :
  (exists raw, raw_grid prof_2d y_axis y_diam = Ok raw) /\
  (prof_2d <> [] -> y_axis <> [] ->
   0 < y_diam \/ ref_cell_exists (length prof_2d) (length y_axis) ->
   exists grid y_profile,
     profrevolve prof_2d y_axis y_diam = Ok (grid, y_profile)).
Proof.
  split; [eexists; apply raw_grid_eq |]. intros Hp Hy Hd.
  destruct (min_prof_grid_cases prof_2d y_axis y_diam)
    as [(_ & _ & _ & ref & Href) | ([-> | [-> | [Hle Hno]]] & _)]; try done.
  - destruct (centre_lookup y_axis Hy) as [y Hmid].
    rewrite (profrevolve_run _ _ _ _ _ Href Hmid). eauto.
  - destruct Hd as [Hd | Hd]; [lra | done].
Qed.

(** ** C6: empty axes *)

(** C6, as stated, fails: [profrevolve] raises on an empty profile and on an
    empty [y_axis]. *)
Lemma profrevolve_empty_raises :
  profrevolve [] [0] 1 = Raise ValueError /\
  profrevolve [0] [] (-1) = Raise IndexError.
Proof.
  split; apply profrevolve_raise.
  - rewrite min_prof_convex by lra. by apply nd_min_empty.
  - rewrite min_prof_concave by lra. apply nd_getitem_outside.
    intros [_ [Hcol _]]. apply Hcol. reflexivity.
Qed.

(** C6 (amended): [profball] on an empty [x_axis] returns an empty profile
    and raises nothing; [profrevolve] on an empty [prof_2d] or an empty
    [y_axis] returns nothing: it raises ValueError (the minimum of an empty
    grid) when [y_diam > 0] and IndexError (the reference lookup)
    otherwise. *)
Theorem empty_axes r_ball prof_2d y_axis y_diam :
  profball [] r_ball = [] /\
  profrevolve [] y_axis y_diam
  = Raise (if Rlt_dec 0 y_diam then ValueError else IndexError) /\
  profrevolve prof_2d [] y_diam
  = Raise (if Rlt_dec 0 y_diam then ValueError else IndexError).
Proof.
  split; [done |]. split; apply profrevolve_raise.
  - by destruct (min_prof_grid_cases [] y_axis y_diam)
      as [(? & _) | (_ & ?)].
  - by destruct (min_prof_grid_cases prof_2d [] y_diam)
      as [(_ & ? & _) | (_ & ?)].
Qed.

(** ** C10: the convex grid is referenced to zero *)

(** C10: for non-empty [prof_2d] and [y_axis] and [y_diam > 0], [profrevolve]
    returns the raw grid minus its global minimum: every cell of the first
    output is at least 0, and 0 is among them. *)
Theorem profrevolve_convex_nonneg prof_2d y_axis y_diam :
  prof_2d <> [] -> y_axis <> [] -> 0 < y_diam ->
  exists grid y_profile raw m,
    profrevolve prof_2d y_axis y_diam = Ok (grid, y_profile) /\
    raw_grid prof_2d y_axis y_diam = Ok raw /\
    nd_min raw = Ok m /\
    grid = nd_map (fun v => v - m) raw /\
    (forall v, v ∈ concat (nd_data grid) -> 0 <= v) /\
    0 ∈ concat (nd_data grid).
Proof.
  intros Hp Hy Hd.
  destruct (nd_min_spec (grid_of prof_2d y_axis y_diam))
    as (m & Hm & Hin & Hlow); [by apply concat_grid_nonempty |].
  destruct (centre_lookup y_axis Hy) as [y Hmid].
  eexists _, _, (grid_of prof_2d y_axis y_diam), m.
  split.
  { apply (profrevolve_run _ _ _ m y); [| done].
    by rewrite min_prof_convex. }
  split; [apply raw_grid_eq |]. split; [done |]. split; [done |].
  unfold nd_map at 1 2. cbn [nd_data]. rewrite concat_fmap_rows. split.
  - intros v (w & -> & Hw)%list_elem_of_fmap. specialize (Hlow w Hw). lra.
  - apply list_elem_of_fmap. exists m. split; [lra | done].
Qed.

Lemma profrevolve_convex_nonneg_witness :
  [0] <> [] /\ [0] <> [] /\ 0 < 1 /\
  exists grid y_profile raw m,
    profrevolve [0] [0] 1 = Ok (grid, y_profile) /\
    raw_grid [0] [0] 1 = Ok raw /\
    nd_min raw = Ok m /\
    grid = nd_map (fun v => v - m) raw /\
    (forall v, v ∈ concat (nd_data grid) -> 0 <= v) /\
    0 ∈ concat (nd_data grid).
Proof.
  split; [done |]. split; [done |]. split; [lra |].
  apply (profrevolve_convex_nonneg [0] [0] 1); [done | done | lra].
Defined.

(** ** profball *)

Lemma profball_lookup (x_axis : list R) r_ball i :
  profball x_axis r_ball !! i
  = (fun x => np_mul (np_sub (Num (Rabs r_ball)) (np_sqrt (r_ball ^ 2 - x ^ 2)))
                     (Num (np_sign r_ball))) <$> x_axis !! i.
Proof.
  unfold profball. rewrite !list_lookup_fmap.
  by destruct (x_axis !! i).
Qed.

(** Inside the ball the height is a real number, not NaN. *)
Lemma profball_height r_ball x :
  x ^ 2 <= r_ball ^ 2 ->
  np_mul (np_sub (Num (Rabs r_ball)) (np_sqrt (r_ball ^ 2 - x ^ 2)))
         (Num (np_sign r_ball))
  = Num (np_sign r_ball * (Rabs r_ball - sqrt (r_ball ^ 2 - x ^ 2))).
Proof.
  intros Hx. rewrite np_sqrt_nonneg by lra. simpl. f_equal. lra.
Qed.

Lemma sqrt_chord_bounds r_ball x :
  x ^ 2 <= r_ball ^ 2 ->
  0 <= sqrt (r_ball ^ 2 - x ^ 2) <= Rabs r_ball.
Proof.
  intros Hx. split; [apply sqrt_pos |].
  rewrite <- (sqrt_pow2_abs r_ball). apply sqrt_le_1_alt.
  assert (0 <= x ^ 2) by (apply pow2_ge_0). lra.
Qed.

(** C7: for an [x_axis] inside the ball, [profball] returns a profile as
    long as [x_axis] whose i-th value is
    sign(r_ball) * (|r_ball| - sqrt(r_ball² - x_axis[i]²)), and that value is
    0 wherever [x_axis[i] = 0]. *)
Theorem profball_profile (x_axis : list R) r_ball :
  Forall (fun x => x ^ 2 <= r_ball ^ 2) x_axis ->
  length (profball x_axis r_ball) = length x_axis /\
  forall i x,
    x_axis !! i = Some x ->
    profball x_axis r_ball !! i
    = Some (Num (np_sign r_ball * (Rabs r_ball - sqrt (r_ball ^ 2 - x ^ 2)))) /\
    (x = 0 -> profball x_axis r_ball !! i = Some (Num 0)).
Proof.
  intros Hin. split; [unfold profball; by rewrite !length_fmap |].
  intros i x Hx.
  pose proof (Forall_lookup_1 _ _ _ _ Hin Hx) as Hle. cbv beta in Hle.
  rewrite profball_lookup, Hx. cbn [fmap option_fmap option_map].
  rewrite (profball_height _ _ Hle).
  split; [done |]. intros ->. do 2 f_equal.
  replace (r_ball ^ 2 - 0 ^ 2) with (r_ball ^ 2) by lra.
  rewrite sqrt_pow2_abs. lra.
Qed.

Lemma inside_ball_example :
  Forall (fun x => x ^ 2 <= 2 ^ 2) [-1; 0; 1].
Proof. repeat constructor; lra. Qed.

Lemma profball_profile_witness :
  Forall (fun x => x ^ 2 <= 2 ^ 2) [-1; 0; 1] /\
  [-1; 0; 1] !! 1%nat = Some 0 /\
  length (profball [-1; 0; 1] 2) = length [-1; 0; 1] /\
  profball [-1; 0; 1] 2 !! 1%nat = Some (Num 0).
Proof.
  split; [apply inside_ball_example |]. split; [reflexivity |].
  destruct (profball_profile [-1; 0; 1] 2 inside_ball_example) as [Hlen Hval].
  split; [exact Hlen |].
  apply (Hval 1%nat 0); reflexivity.
Defined.

(** C8: for an [x_axis] inside the ball and symmetric around 0, the profile
    satisfies [profile[i] == profile[len - 1 - i]] at every index. *)
Theorem profball_symmetric (x_axis : list R) r_ball :
  Forall (fun x => x ^ 2 <= r_ball ^ 2) x_axis ->
  (forall i x, x_axis !! i = Some x ->
               x_axis !! (length x_axis - 1 - i)%nat = Some (- x)) ->
  forall i, (i < length x_axis)%nat ->
    exists a b,
      profball x_axis r_ball !! i = Some a /\
      profball x_axis r_ball !! (length x_axis - 1 - i)%nat = Some b /\
      py_eq a b.
Proof.
  intros Hin Hsym i Hi.
  destruct (lookup_lt_is_Some_2 _ _ Hi) as [x Hx].
  pose proof (Hsym i x Hx) as Hx'.
  pose proof (Forall_lookup_1 _ _ _ _ Hin Hx) as Hle.
  pose proof (Forall_lookup_1 _ _ _ _ Hin Hx') as Hle'. cbv beta in Hle, Hle'.
  rewrite !profball_lookup, Hx, Hx'. cbn [fmap option_fmap option_map].
  rewrite (profball_height _ _ Hle), (profball_height _ _ Hle').
  eexists _, _. split; [done |]. split; [done |]. cbn [py_eq].
  by replace ((- x) ^ 2) with (x ^ 2) by lra.
Qed.

Lemma symmetric_axis_example :
  forall i x, [-1; 0; 1] !! i = Some x ->
              [-1; 0; 1] !! (length [-1; 0; 1]%R - 1 - i)%nat = Some (- x).
Proof.
  intros [| [| [| i]]] x [=]; subst x; simpl; f_equal; lra.
Qed.

Lemma profball_symmetric_witness :
  Forall (fun x => x ^ 2 <= 2 ^ 2) [-1; 0; 1] /\
  (0 < length [-1; 0; 1]%R)%nat /\
  exists a b,
    profball [-1; 0; 1] 2 !! 0%nat = Some a /\
    profball [-1; 0; 1] 2 !! 2%nat = Some b /\
    py_eq a b.
Proof.
  split; [apply inside_ball_example |]. split; [simpl; lia |].
  apply (profball_symmetric [-1; 0; 1] 2 inside_ball_example
           symmetric_axis_example 0%nat).
  simpl; lia.
Defined.

(** C9: for an [x_axis] inside the ball, every value of the profile is a
    real number of absolute value at most [|r_ball|]. *)
Theorem profball_bounded (x_axis : list R) r_ball :
  Forall (fun x => x ^ 2 <= r_ball ^ 2) x_axis ->
  Forall (fun h => exists v, h = Num v /\ Rabs v <= Rabs r_ball)
         (profball x_axis r_ball).
Proof.
  intros Hin. apply Forall_lookup_2. intros i h Hh.
  rewrite profball_lookup in Hh.
  destruct (x_axis !! i) as [x |] eqn:Hx; [| done].
  pose proof (Forall_lookup_1 _ _ _ _ Hin Hx) as Hle. cbv beta in Hle.
  cbn [fmap option_fmap option_map] in Hh.
  rewrite (profball_height _ _ Hle) in Hh. injection Hh as <-.
  pose proof (sqrt_chord_bounds _ _ Hle) as [Hlo Hhi].
  pose proof (Rabs_pos r_ball) as Hr.
  set (s := sqrt (r_ball ^ 2 - x ^ 2)) in *.
  exists (np_sign r_ball * (Rabs r_ball - s)). split; [reflexivity |].
  apply Rabs_le.
  destruct (np_sign_cases r_ball) as [[_ ->] | [[_ ->] | [_ ->]]]; lra.
Qed.

Lemma profball_bounded_witness :
  Forall (fun x => x ^ 2 <= 2 ^ 2) [-1; 0; 1] /\
  Forall (fun h => exists v, h = Num v /\ Rabs v <= Rabs 2)
         (profball [-1; 0; 1] 2).
Proof.
  split; [apply inside_ball_example |].
  apply (profball_bounded [-1; 0; 1] 2 inside_ball_example).
Defined.

(** ** Worked examples *)

Example round_half_values :
  map round_half [0; 1; 2; 3; 4; 5; 6; 7]%Z = [0; 0; 1; 2; 2; 2; 3; 4]%Z.
Proof. reflexivity. Qed.

Example np_index_values :
  np_index 3 (-1) = Ok 2%nat /\ np_index 3 2 = Ok 2%nat /\
  np_index 3 3 = Raise IndexError /\ np_index 0 (-1) = Raise IndexError.
Proof. repeat split. Qed.

Lemma sqrt_3_lt_2 : sqrt 3 < 2.
Proof.
  replace 2 with (sqrt (2 * 2)) by (apply sqrt_square; lra).
  apply sqrt_lt_1_alt. lra.
Qed.

(** [profball([-1, 0, 1], 2)] is [[2 - sqrt 3, 0, 2 - sqrt 3]], about
    [[0.2679, 0, 0.2679]]. *)
Example profball_convex :
  profball [-1; 0; 1] 2 = [Num (2 - sqrt 3); Num 0; Num (2 - sqrt 3)].
Proof.
  apply list_eq. intros i. rewrite profball_lookup.
  assert (Rabs 2 = 2) as Habs by (apply Rabs_pos_eq; lra).
  assert (sqrt (2 * 2) = 2) as Hroot by (apply sqrt_square; lra).
  destruct i as [| [| [| i]]]; cbn [lookup list_lookup fmap option_fmap option_map];
    try done; rewrite profball_height by lra; rewrite np_sign_pos, Habs by lra;
    do 2 f_equal.
  - replace (2 ^ 2 - (-1) ^ 2) with 3 by lra. lra.
  - replace (2 ^ 2 - 0 ^ 2) with (2 * 2) by lra. rewrite Hroot. lra.
  - replace (2 ^ 2 - 1 ^ 2) with 3 by lra. lra.
Qed.

(** Outside the ball [np.sqrt] yields NaN, which the rest propagates. *)
Example profball_outside : profball [3] 2 = [NaN].
Proof.
  unfold profball. cbn [fmap list_fmap]. unfold np_sqrt.
  destruct (Rlt_dec (2 ^ 2 - 3 ^ 2) 0) as [_ | H]; [done | lra].
Qed.

(** [profrevolve([0, 0, 0], [-1, 0, 1], 4)]: a flat profile revolved into a
    bowl whose centre column is at height 0. *)
Example profrevolve_flat :
  let a := 2 - sqrt 3 in
  profrevolve [0; 0; 0] [-1; 0; 1] 4
  = Ok (NdArray 3 3 [[a - 0; 0 - 0; a - 0]; [a - 0; 0 - 0; a - 0];
                     [a - 0; 0 - 0; a - 0]],
        [- (0 - 0); - (0 - 0); - (0 - 0)]).
Proof.
  intros a.
  assert (Rabs 4 = 4) as Habs by (apply Rabs_pos_eq; lra).
  assert (sqrt (2 * 2) = 2) as Hroot by (apply sqrt_square; lra).
  assert (forall y, y ^ 2 = 1 -> cell_value 4 0 y = a) as Hside.
  { intros y Hy.
    assert (bracket 4 0 y = 3) as Hb
      by (unfold bracket; rewrite np_sign_pos by lra; lra).
    rewrite cell_value_root by lra.
    rewrite Hb, np_sign_pos, Habs by lra. unfold a. lra. }
  assert (cell_value 4 0 0 = 0) as Hmid.
  { assert (bracket 4 0 0 = 2 * 2) as Hb
      by (unfold bracket; rewrite np_sign_pos by lra; lra).
    rewrite cell_value_root by lra.
    rewrite Hb, Hroot, np_sign_pos, Habs by lra. lra. }
  assert (grid_of [0; 0; 0] [-1; 0; 1] 4
          = NdArray 3 3 [[a; 0; a]; [a; 0; a]; [a; 0; a]]) as Hraw.
  { unfold grid_of. cbn [fmap list_fmap length].
    by rewrite Hmid, !Hside by lra. }
  assert (0 < a) as Ha by (pose proof sqrt_3_lt_2; unfold a; lra).
  rewrite (profrevolve_run _ _ _ 0 0); [| | done].
  - rewrite Hraw. unfold nd_map.
    cbn [fmap list_fmap nd_rows nd_cols nd_data]. by rewrite Hmid.
  - rewrite min_prof_convex by lra. rewrite Hraw.
    unfold nd_min. cbn [nd_data concat app foldl]. f_equal.
    repeat (rewrite ?(Rmin_right a 0), ?(Rmin_right 0 0), ?(Rmin_left 0 a) by lra).
    done.
Qed.

(** * profrevolve with a zero diameter *)

Lemma cell_value_zero_diam p y : cell_value 0 p y = 0.
Proof.
  rewrite cell_value_clamped.
  - rewrite Rabs_R0. lra.
  - unfold bracket. rewrite np_sign_zero.
    assert (0 <= y ^ 2) by apply pow2_ge_0. lra.
Qed.

Lemma nd_getitem_grid_cell prof_2d y_axis y_diam i j v :
  nd_getitem (grid_of prof_2d y_axis y_diam) i j = Ok v ->
  exists p y, v = cell_value y_diam p y.
Proof.
  unfold nd_getitem.
  destruct (np_index _ i) as [i' |]; [| done]. cbn [bind].
  destruct (np_index _ j) as [j' |]; [| done]. cbn [bind].
  rewrite nd_cell_grid_of.
  destruct (prof_2d !! i') as [p |]; [| done]. cbn [mbind option_bind].
  destruct (y_axis !! j') as [y |]; [| done]. cbn [fmap option_fmap option_map].
  intros [= <-]. eauto.
Qed.

(** With [y_diam = 0] every bracket is clamped: on non-empty inputs whose
    reference cell exists, [profrevolve] returns a grid and a centre column
    that are 0 everywhere, whatever the profile. *)
Theorem profrevolve_zero_diameter (prof_2d y_axis : list R) :
  prof_2d <> [] -> y_axis <> [] ->
  ref_cell_exists (length prof_2d) (length y_axis) ->
  exists grid y_profile,
    profrevolve prof_2d y_axis 0 = Ok (grid, y_profile) /\
    nd_rows grid = length prof_2d /\ nd_cols grid = length y_axis /\
    (forall v, v ∈ concat (nd_data grid) -> v = 0) /\
    length y_profile = length prof_2d /\
    (forall v, v ∈ y_profile -> v = 0).
Proof.
  intros Hp Hy Hk.
  destruct (min_prof_grid_cases prof_2d y_axis 0)
    as [(_ & _ & _ & ref & Href) | ([-> | [-> | [_ Hno]]] & _)]; try done.
  assert (ref = 0) as ->.
  { rewrite min_prof_concave in Href by lra.
    apply nd_getitem_grid_cell in Href as (p & y & ->).
    apply cell_value_zero_diam. }
  destruct (centre_lookup y_axis Hy) as [y Hmid].
  rewrite (profrevolve_run _ _ _ 0 y Href Hmid).
  eexists _, _. split; [done |]. split; [done |]. split; [done |].
  split; [| split].
  - unfold nd_map, grid_of. cbn [nd_data]. rewrite concat_fmap_rows.
    intros v (w & -> & Hw)%list_elem_of_fmap.
    apply list_elem_of_In, in_concat in Hw as (row & Hrow & Hw).
    apply list_elem_of_In in Hrow, Hw.
    apply list_elem_of_fmap in Hrow as (p & -> & _).
    apply list_elem_of_fmap in Hw as (y' & -> & _).
    rewrite cell_value_zero_diam. lra.
  - by rewrite length_fmap.
  - intros v (p & -> & _)%list_elem_of_fmap.
    rewrite cell_value_zero_diam. lra.
Qed.

Lemma profrevolve_zero_diameter_witness :
  exists grid y_profile,
    profrevolve [1; 2] [3; 4] 0 = Ok (grid, y_profile) /\
    nd_rows grid = length [1; 2]%R /\ nd_cols grid = length [3; 4]%R /\
    (forall v, v ∈ concat (nd_data grid) -> v = 0) /\
    length y_profile = length [1; 2]%R /\
    (forall v, v ∈ y_profile -> v = 0).
Proof.
  apply (profrevolve_zero_diameter [1; 2] [3; 4]); [done | done |].
  apply (bool_decide_unpack _). by vm_compute.
Defined.

(** * The scalar formulas: properties *)

Lemma py_div_nonzero a b : b <> 0 -> py_div a b = Return (a / b).
Proof. intros H. unfold py_div. by destruct (Req_dec_T b 0). Qed.

Lemma py_div_zero a : py_div a 0 = Throw ZeroDivisionError.
Proof. unfold py_div. by destruct (Req_dec_T 0 0). Qed.

(** ** Kinematics *)

(** [srr] raises ZeroDivisionError exactly when the two velocities cancel;
    otherwise it returns [2 * (vel_1 - vel_2) / (vel_1 + vel_2)]. *)
Theorem srr_cases vel_1 vel_2 :
  (vel_1 + vel_2 = 0 -> srr vel_1 vel_2 = Throw ZeroDivisionError) /\
  (vel_1 + vel_2 <> 0 ->
   srr vel_1 vel_2 = Return (2 * (vel_1 - vel_2) / (vel_1 + vel_2))).
Proof.
  unfold srr, vslide, vroll. split; intros H.
  - rewrite H. replace (0 / 2) with 0 by lra. apply py_div_zero.
  - rewrite py_div_nonzero by lra. f_equal. field. lra.
Qed.

Lemma srr_cases_witness :
  srr 1 (-1) = Throw ZeroDivisionError /\
  srr 3 1 = Return (2 * (3 - 1) / (3 + 1)).
Proof.
  split.
  - apply (proj1 (srr_cases 1 (-1))). lra.
  - apply (proj2 (srr_cases 3 1)). lra.
Defined.

(** Swapping the two bodies changes the sign of the slide-to-roll ratio. *)
Theorem srr_swap vel_1 vel_2 :
  vel_1 + vel_2 <> 0 ->
  exists s, srr vel_1 vel_2 = Return s /\ srr vel_2 vel_1 = Return (- s).
Proof.
  intros H. unfold srr, vslide, vroll.
  rewrite !py_div_nonzero by lra.
  eexists. split; [done |]. f_equal. field. lra.
Qed.

Lemma srr_swap_witness :
  3 + 1 <> 0 /\ exists s, srr 3 1 = Return s /\ srr 1 3 = Return (- s).
Proof. split; [lra |]. apply (srr_swap 3 1). lra. Defined.

(** For two bodies moving in the same direction the ratio lies in [-2, 2]:
    it is 0 in pure rolling and 2 when the second body stands still. *)
Theorem srr_range vel_1 vel_2 :
  0 <= vel_1 -> 0 <= vel_2 -> 0 < vel_1 + vel_2 ->
  exists s, srr vel_1 vel_2 = Return s /\ -2 <= s <= 2 /\
            (vel_1 = vel_2 -> s = 0) /\ (vel_2 = 0 -> s = 2).
Proof.
  intros H1 H2 H. unfold srr, vslide, vroll.
  rewrite py_div_nonzero by lra.
  set (s := (vel_1 - vel_2) / ((vel_1 + vel_2) / 2)).
  assert (s * (vel_1 + vel_2) = 2 * (vel_1 - vel_2)) as Hs
    by (unfold s; field; lra).
  exists s. split; [done |]. repeat split.
  - nra.
  - nra.
  - intros ->. nra.
  - intros ->. nra.
Qed.

Lemma srr_range_witness :
  0 <= 3 /\ 0 <= 1 /\ 0 < 3 + 1 /\
  exists s, srr 3 1 = Return s /\ -2 <= s <= 2 /\
            (3 = 1 -> s = 0) /\ (1 = 0 -> s = 2).
Proof.
  split; [lra |]. split; [lra |]. split; [lra |].
  apply (srr_range 3 1); lra.
Defined.

Lemma rpm2radpersec_zero vel : rpm2radpersec vel = 0 -> vel = 0.
Proof.
  unfold rpm2radpersec. intros H. pose proof PI_RGT_0.
  assert (vel * (/ 60 * 2 * PI) = 0) as H' by lra.
  apply Rmult_integral in H' as [-> | H']; [done |].
  exfalso. assert (0 < / 60 * 2 * PI) by (apply Rmult_lt_0_compat; lra). lra.
Qed.

(** [radpersec2rpm] raises ZeroDivisionError at 0 and nowhere else; away from
    0 it returns [vel * 30 / pi] and [rpm2radpersec] undoes it. *)
Theorem radpersec2rpm_cases vel :
  (vel = 0 -> radpersec2rpm vel = Throw ZeroDivisionError) /\
  (vel <> 0 ->
   radpersec2rpm vel = Return (vel * 30 / PI) /\
   rpm2radpersec (vel * 30 / PI) = vel).
Proof.
  pose proof PI_RGT_0 as Hpi. unfold radpersec2rpm. split.
  - intros ->. by rewrite py_div_zero.
  - intros H. rewrite py_div_nonzero by done. cbn [and_then].
    assert (1 / vel <> 0) as Hinv
      by (unfold Rdiv; rewrite Rmult_1_l; by apply Rinv_neq_0_compat).
    rewrite py_div_nonzero by (intros Hz; by apply rpm2radpersec_zero in Hz).
    split; [f_equal |]; unfold rpm2radpersec; field; lra.
Qed.

Lemma radpersec2rpm_cases_witness :
  radpersec2rpm 0 = Throw ZeroDivisionError /\
  radpersec2rpm 2 = Return (2 * 30 / PI) /\
  rpm2radpersec (2 * 30 / PI) = 2.
Proof.
  split.
  - by apply (proj1 (radpersec2rpm_cases 0)).
  - apply (proj2 (radpersec2rpm_cases 2)). lra.
Defined.

(** Converting a non-zero speed from rpm to rad/s and back returns it. *)
Theorem rpm_round_trip vel :
  vel <> 0 -> radpersec2rpm (rpm2radpersec vel) = Return vel.
Proof.
  intros H. pose proof PI_RGT_0 as Hpi.
  assert (rpm2radpersec vel <> 0) as Hne
    by (intros Hz; by apply rpm2radpersec_zero in Hz).
  unfold radpersec2rpm. rewrite py_div_nonzero by done. cbn [and_then].
  rewrite py_div_nonzero.
  - f_equal. unfold rpm2radpersec in *. field. lra.
  - intros Hz. apply rpm2radpersec_zero in Hz.
    unfold Rdiv in Hz. rewrite Rmult_1_l in Hz.
    by apply Rinv_neq_0_compat in Hne.
Qed.

Lemma rpm_round_trip_witness :
  60 <> 0 /\ radpersec2rpm (rpm2radpersec 60) = Return 60.
Proof. split; [lra |]. apply (rpm_round_trip 60). lra. Defined.

(** ** Test rigs *)

Lemma rball3plates_cos r_ball plate_angle :
  rball3plates r_ball plate_angle = r_ball * cos (plate_angle / 2).
Proof.
  unfold rball3plates.
  replace ((PI - plate_angle) / 2) with (PI / 2 - plate_angle / 2) by lra.
  by rewrite sin_shift.
Qed.

(** The sliding radius of the ball-on-3-plates rig is
    [r_ball * cos(plate_angle / 2)]; it never exceeds the ball radius. *)
Theorem rball3plates_bound r_ball plate_angle :
  rball3plates r_ball plate_angle = r_ball * cos (plate_angle / 2) /\
  Rabs (rball3plates r_ball plate_angle) <= Rabs r_ball.
Proof.
  split; [apply rball3plates_cos |].
  rewrite rball3plates_cos, Rabs_mult.
  pose proof (COS_bound (plate_angle / 2)) as Hc.
  pose proof (Rabs_pos r_ball) as Hr.
  assert (Rabs (cos (plate_angle / 2)) <= 1) by (apply Rabs_le; lra).
  nra.
Qed.

(** Whenever [cos(plate_angle / 2)] is not 0, [fball3plates] returns, and the
    plate angle drops out of the product of lever arm and normal force, which
    is [r_ball * ax_force / 3]. *)
Theorem fball3plates_torque r_ball ax_force plate_angle :
  cos (plate_angle / 2) <> 0 ->
  exists force,
    fball3plates ax_force plate_angle = Return force /\
    rball3plates r_ball plate_angle * force = r_ball * ax_force / 3.
Proof.
  intros H. unfold fball3plates.
  rewrite py_div_nonzero by done. eexists. split; [done |].
  rewrite rball3plates_cos. field. done.
Qed.

Lemma fball3plates_torque_witness :
  cos (0 / 2) <> 0 /\
  exists force,
    fball3plates 1 0 = Return force /\ rball3plates 1 0 * force = 1 * 1 / 3.
Proof.
  assert (cos (0 / 2) <> 0) as H
    by (replace (0 / 2) with 0 by lra; rewrite cos_0; lra).
  split; [exact H |]. apply (fball3plates_torque 1 1 0 H).
Defined.

Lemma plate_angle_default_cos : 0 < cos (plate_angle_default / 2) <= 1.
Proof.
  pose proof PI2_3_2 as Hpi. unfold plate_angle_default.
  split; [| apply COS_bound].
  apply cos_gt_0; lra.
Qed.

(** With the default plate angle [fball3plates] never raises, and a positive
    axial force gives a normal force of at least a third of it. *)
Theorem fball3plates_default ax_force :
  exists force,
    fball3plates ax_force plate_angle_default = Return force /\
    (0 <= ax_force -> ax_force / 3 <= force).
Proof.
  pose proof plate_angle_default_cos as [Hpos Hle].
  unfold fball3plates. rewrite py_div_nonzero by lra.
  eexists. split; [done |]. intros Hf.
  set (c := cos (plate_angle_default / 2)) in *.
  assert (ax_force / 3 / c * c = ax_force / 3) as Hq by (field; lra).
  assert (0 <= ax_force / 3 / c)
    by (apply Rmult_le_pos; [lra | left; by apply Rinv_0_lt_compat]).
  nra.
Qed.

Lemma fball3plates_default_witness :
  exists force,
    fball3plates 3 plate_angle_default = Return force /\ 3 / 3 <= force.
Proof.
  destruct (fball3plates_default 3) as (force & Hrun & Hle).
  exists force. split; [exact Hrun |]. apply Hle. lra.
Defined.

Lemma sqrt_3_bounds : 17 / 10 < sqrt 3 < 2.
Proof.
  split.
  - replace (17 / 10) with (sqrt (17 / 10 * (17 / 10)))
      by (apply sqrt_square; lra).
    apply sqrt_lt_1_alt. lra.
  - replace 2 with (sqrt (2 * 2)) by (apply sqrt_square; lra).
    apply sqrt_lt_1_alt. lra.
Qed.

Lemma math_acos_inside x : -1 <= x <= 1 -> math_acos x = Return (acos x).
Proof.
  intros [Hlo Hhi]. unfold math_acos.
  destruct (Rle_dec (-1) x); [| lra]. destruct (Rle_dec x 1); [done | lra].
Qed.


(** The ratio fed to [math.acos], for positive radii. *)
Lemma fourball_ratio r_1 r_2 :
  0 < r_2 -> 0 < r_1 ->
  let ratio := sqrt 3 / 3 * 2 * r_2 / (r_1 + r_2) in
  0 < ratio /\
  (ratio <= 1 <-> (sqrt 3 / 3 * 2 - 1) * r_2 <= r_1) /\
  (ratio < 1 <-> (sqrt 3 / 3 * 2 - 1) * r_2 < r_1).
Proof.
  intros H2 H1 ratio. pose proof sqrt_3_bounds as [Hlo Hhi].
  assert (ratio * (r_1 + r_2) = sqrt 3 / 3 * 2 * r_2) as Hr
    by (unfold ratio; field; lra).
  assert (0 < ratio).
  { unfold ratio. apply Rmult_lt_0_compat; [nra |].
    apply Rinv_0_lt_compat. lra. }
  split; [done |]. split; split; intros H'; nra.
Qed.

Lemma gfourball_Return r_1 r_2 :
  0 < r_2 -> (sqrt 3 / 3 * 2 - 1) * r_2 <= r_1 ->
  let r_c := sqrt 3 / 3 * 2 * r_2 in
  -1 <= r_c / (r_1 + r_2) <= 1 /\
  gfourball r_1 r_2
  = Return (r_c - r_2 * cos (acos (r_c / (r_1 + r_2))), acos (r_c / (r_1 + r_2))).
Proof.
  intros H2 Hle r_c. pose proof sqrt_3_bounds as [Hlo Hhi].
  assert (0 < r_1) as H1 by nra.
  destruct (fourball_ratio r_1 r_2 H2 H1) as (Hpos & Hiff & _).
  fold r_c in Hpos, Hiff. apply Hiff in Hle.
  split; [lra |]. unfold gfourball. fold r_c.
  rewrite py_div_nonzero by lra. cbn [and_then].
  by rewrite math_acos_inside by lra.
Qed.

(** For a rotating ball large enough to rest on the three stationary balls,
    [(2 * sqrt 3 / 3 - 1) * r_2 <= r_1], [gfourball] returns the contact angle
    [acos(r_c / (r_1 + r_2))] with [r_c = 2 * sqrt 3 / 3 * r_2], and the
    sliding radius [r_c * r_1 / (r_1 + r_2)]. *)
Theorem gfourball_value r_1 r_2 :
  0 < r_2 -> (sqrt 3 / 3 * 2 - 1) * r_2 <= r_1 ->
  let r_c := sqrt 3 / 3 * 2 * r_2 in
  gfourball r_1 r_2
  = Return (r_c - r_2 * cos (acos (r_c / (r_1 + r_2))), acos (r_c / (r_1 + r_2)))
  /\ r_c - r_2 * cos (acos (r_c / (r_1 + r_2))) = r_c * r_1 / (r_1 + r_2).
Proof.
  intros H2 Hle r_c. pose proof sqrt_3_bounds as [Hlo Hhi].
  destruct (gfourball_Return r_1 r_2 H2 Hle) as [Hratio Hrun].
  fold r_c in Hratio, Hrun. split; [done |].
  rewrite cos_acos by done. field. nra.
Qed.

Lemma gfourball_value_witness :
  0 < 1 /\ (sqrt 3 / 3 * 2 - 1) * 1 <= 1 /\
  gfourball 1 1
  = Return (sqrt 3 / 3 * 2 * 1
              - 1 * cos (acos (sqrt 3 / 3 * 2 * 1 / (1 + 1))),
            acos (sqrt 3 / 3 * 2 * 1 / (1 + 1))).
Proof.
  pose proof sqrt_3_bounds as [Hlo Hhi].
  split; [lra |]. split; [lra |].
  apply (gfourball_value 1 1); lra.
Defined.





(** ** Unit prefixes *)

Lemma prefix_positive : map_Forall (fun _ scale => 0 < scale) prefix.
Proof.
  unfold prefix.
  repeat (apply map_Forall_insert_2; [apply powerRZ_lt; lra |]).
  apply map_Forall_empty.
Qed.

Lemma prefix_keys :
  dom prefix = ({["p"; "n"; "mu"; "m"; ""; "k"; "M"; "G"; "T"]} : gset string).
Proof. unfold prefix. rewrite !dom_insert_L, dom_empty_L. set_solver. Qed.

Lemma dict_getitem_Some d k v : d !! k = Some v -> dict_getitem d k = Return v.
Proof. intros H. unfold dict_getitem. by rewrite H. Qed.

Lemma dict_getitem_None d k : d !! k = None -> dict_getitem d k = Throw (KeyError k).
Proof. intros H. unfold dict_getitem. by rewrite H. Qed.

Lemma refix_known value p_in p_out scale_in scale_out :
  prefix !! p_in = Some scale_in -> prefix !! p_out = Some scale_out ->
  0 < scale_in /\ 0 < scale_out /\
  refix value p_in p_out = Return (value * scale_in / scale_out).
Proof.
  intros Hin Hout.
  pose proof (prefix_positive _ _ Hin) as Hpi.
  pose proof (prefix_positive _ _ Hout) as Hpo. simpl in Hpi, Hpo.
  split; [done |]. split; [done |]. unfold refix.
  rewrite (dict_getitem_Some _ _ _ Hin). cbn [and_then].
  rewrite (dict_getitem_Some _ _ _ Hout). cbn [and_then].
  apply py_div_nonzero. lra.
Qed.

(** [refix] raises KeyError on a prefix that is not one of the nine keys of
    its dictionary, the input prefix being looked up first. *)
Theorem refix_unknown value p_in p_out :
  (p_in ∉ ({["p"; "n"; "mu"; "m"; ""; "k"; "M"; "G"; "T"]} : gset string) ->
   refix value p_in p_out = Throw (KeyError p_in)) /\
  (p_in ∈ ({["p"; "n"; "mu"; "m"; ""; "k"; "M"; "G"; "T"]} : gset string) ->
   p_out ∉ ({["p"; "n"; "mu"; "m"; ""; "k"; "M"; "G"; "T"]} : gset string) ->
   refix value p_in p_out = Throw (KeyError p_out)).
Proof.
  rewrite <- prefix_keys. unfold refix. split.
  - intros Hin%not_elem_of_dom. by rewrite (dict_getitem_None _ _ Hin).
  - intros [scale Hin]%elem_of_dom Hout%not_elem_of_dom.
    rewrite (dict_getitem_Some _ _ _ Hin). cbn [and_then].
    by rewrite (dict_getitem_None _ _ Hout).
Qed.

Lemma refix_unknown_witness :
  refix 1 "u" "m" = Throw (KeyError "u") /\
  refix 1 "m" "c" = Throw (KeyError "c").
Proof.
  split.
  - apply (proj1 (refix_unknown 1 "u" "m")).
    apply (bool_decide_unpack _). by vm_compute.
  - apply (proj2 (refix_unknown 1 "m" "c"));
      apply (bool_decide_unpack _); by vm_compute.
Defined.

(** Converting between two known prefixes and back returns the value. *)
Theorem refix_round_trip value p_in p_out :
  is_Some (prefix !! p_in) -> is_Some (prefix !! p_out) ->
  exists converted,
    refix value p_in p_out = Return converted /\
    refix converted p_out p_in = Return value.
Proof.
  intros [scale_in Hin] [scale_out Hout].
  destruct (refix_known value _ _ _ _ Hin Hout) as (Hpi & Hpo & ->).
  eexists. split; [done |].
  destruct (refix_known (value * scale_in / scale_out) _ _ _ _ Hout Hin)
    as (_ & _ & ->).
  f_equal. field. lra.
Qed.

Lemma prefix_k : prefix !! "k" = Some (powerRZ 10 3).
Proof. reflexivity. Qed.

Lemma prefix_mu : prefix !! "mu" = Some (powerRZ 10 (-6)).
Proof. reflexivity. Qed.

Lemma prefix_none : prefix !! "" = Some (powerRZ 10 (-0)).
Proof. reflexivity. Qed.

Lemma refix_round_trip_witness :
  exists converted,
    refix 5 "k" "mu" = Return converted /\
    refix converted "mu" "k" = Return 5.
Proof.
  apply (refix_round_trip 5 "k" "mu").
  - rewrite prefix_k. by eexists.
  - rewrite prefix_mu. by eexists.
Defined.

(** Conversions compose: going from [p_1] to [p_2] and then to [p_3] is the
    conversion from [p_1] to [p_3]; converting to the same prefix, the default
    arguments included, changes nothing. *)
Theorem refix_compose value p_1 p_2 p_3 :
  is_Some (prefix !! p_1) -> is_Some (prefix !! p_2) ->
  is_Some (prefix !! p_3) ->
  (exists converted,
     refix value p_1 p_2 = Return converted /\
     refix converted p_2 p_3 = refix value p_1 p_3) /\
  refix value p_1 p_1 = Return value.
Proof.
  intros [s1 H1] [s2 H2] [s3 H3]. split.
  - destruct (refix_known value _ _ _ _ H1 H2) as (Hp1 & Hp2 & ->).
    eexists. split; [done |].
    destruct (refix_known (value * s1 / s2) _ _ _ _ H2 H3) as (_ & Hp3 & ->).
    destruct (refix_known value _ _ _ _ H1 H3) as (_ & _ & ->).
    f_equal. field. lra.
  - destruct (refix_known value _ _ _ _ H1 H1) as (Hp1 & _ & ->).
    f_equal. field. lra.
Qed.

Lemma refix_compose_witness :
  (exists converted,
     refix 5 "k" "" = Return converted /\
     refix converted "" "mu" = refix 5 "k" "mu") /\
  refix 5 "k" "k" = Return 5.
Proof.
  apply (refix_compose 5 "k" "" "mu").
  - rewrite prefix_k. by eexists.
  - rewrite prefix_none. by eexists.
  - rewrite prefix_mu. by eexists.
Defined.

(** A conversion multiplies by the power of ten between the two prefixes:
    from kilo to milli by [10^6], from micro to no prefix by [10^-6]. *)
Example refix_scale value :
  refix value "k" "m" = Return (value * 10 ^ 6) /\
  refix value "mu" "" = Return (value * / 10 ^ 6).
Proof.
  assert (prefix !! "m" = Some (powerRZ 10 (-3))) as Hm by reflexivity.
  split.
  - destruct (refix_known value _ _ _ _ prefix_k Hm) as (_ & _ & ->).
    f_equal. simpl. field.
  - destruct (refix_known value _ _ _ _ prefix_mu prefix_none) as (_ & _ & ->).
    f_equal. simpl. field.
Qed.

(** ** Hertzian parameters *)

Lemma is_zero_ne x : x <> 0 -> is_zero (Finite x) = false.
Proof. intros H. unfold is_zero. by destruct (Req_dec_T x 0). Qed.

Lemma is_zero_0 : is_zero (Finite 0) = true.
Proof. unfold is_zero. by destruct (Req_dec_T 0 0). Qed.

Lemma py_recip_ne x : x <> 0 -> py_recip (Finite x) = Return (Finite (1 / x)).
Proof. intros H. unfold py_recip. by destruct (Req_dec_T x 0). Qed.

(** The last branch of [reff], reached with two finite non-zero radii that
    do not cancel. *)
Lemma reff_harmonic a b :
  a <> 0 -> b <> 0 -> a + b <> 0 ->
  reff (Finite a) (Finite b) = Return (Finite (1 / (1 / a + 1 / b))).
Proof.
  intros Ha Hb Hab. unfold reff.
  rewrite !is_zero_ne by done. cbn [abs_is_inf orb andb negb py_neg py_eqb].
  destruct (Req_dec_T a (- b)) as [-> | _]; [lra |].
  rewrite !py_recip_ne by done. cbn [and_then py_add].
  apply py_recip_ne.
  replace (1 / a + 1 / b) with ((a + b) / (a * b)) by (field; done).
  unfold Rdiv. apply Rmult_integral_contrapositive_currified; [done |].
  apply Rinv_neq_0_compat. by apply Rmult_integral_contrapositive_currified.
Qed.

Lemma reff_returns r_1 r_2 : exists r, reff r_1 r_2 = Return r.
Proof.
  destruct r_1 as [a | | |], r_2 as [b | | |]; unfold reff;
    cbn [is_zero abs_is_inf orb andb negb py_neg py_eqb];
    repeat match goal with
           | |- context [Req_dec_T ?x ?y] => destruct (Req_dec_T x y)
           end;
    cbn [orb andb negb and_then]; eauto.
  - rewrite !py_recip_ne by done. cbn [and_then py_add].
    rewrite py_recip_ne; [eauto |].
    replace (1 / a + 1 / b) with ((a + b) / (a * b)) by (field; done).
    unfold Rdiv. apply Rmult_integral_contrapositive_currified; [lra |].
    apply Rinv_neq_0_compat. by apply Rmult_integral_contrapositive_currified.
  - rewrite py_recip_ne by done. cbn [and_then py_add py_recip]. eauto.
  - rewrite py_recip_ne by done. cbn [and_then py_add py_recip]. eauto.
Qed.

(** [reff] raises nothing unless its arguments are two finite radii of
    opposite signs that do not cancel exactly: it returns when an argument is
    zero, infinite or NaN, when [r_1 = -r_2], and when both have the same
    sign. *)
Theorem reff_never_raises r_1 r_2 :
  (forall a b, r_1 = Finite a -> r_2 = Finite b -> 0 <= a * b \/ a = - b) ->
  exists r, reff r_1 r_2 = Return r.
Proof. intros _. apply reff_returns. Qed.

Lemma reff_never_raises_witness :
  exists r, reff (Finite 2) (Finite 3) = Return r.
Proof.
  apply (reff_never_raises (Finite 2) (Finite 3)).
  intros a b [= <-] [= <-]. left. lra.
Defined.



Lemma reff_zero_r a : a <> 0 -> reff (Finite a) (Finite 0) = Return (Finite a).
Proof.
  intros Ha. unfold reff. rewrite !is_zero_0, !is_zero_ne by lra. done.
Qed.

Lemma reff_zero_l a : a <> 0 -> reff (Finite 0) (Finite a) = Return (Finite a).
Proof.
  intros Ha. unfold reff. rewrite !is_zero_0, !is_zero_ne by lra. done.
Qed.

Lemma reff_cancel a : reff (Finite a) (Finite (- a)) = Return (Finite 0).
Proof.
  destruct (Req_dec_T a 0) as [-> | Ha]; unfold reff.
  - rewrite Ropp_0, !is_zero_0. done.
  - rewrite !is_zero_ne by lra. cbn [abs_is_inf orb andb negb py_neg py_eqb].
    rewrite Ropp_involutive. by destruct (Req_dec_T a a).
Qed.

(** A flat counter-surface, written as radius 0 or as an infinite radius,
    leaves the other radius unchanged, on either side; two radii that cancel
    give 0. *)
Theorem reff_flat a :
  a <> 0 ->
  reff (Finite a) (Finite 0) = Return (Finite a) /\
  reff (Finite 0) (Finite a) = Return (Finite a) /\
  reff (Finite a) PlusInf = Return (Finite a) /\
  reff PlusInf (Finite a) = Return (Finite a) /\
  reff (Finite a) (Finite (- a)) = Return (Finite 0) /\
  reff (Finite 0) (Finite 0) = Return (Finite 0).
Proof.
  intros Ha.
  split; [by apply reff_zero_r |]. split; [by apply reff_zero_l |].
  split; [unfold reff; by rewrite !is_zero_ne by lra |].
  split; [unfold reff; by rewrite !is_zero_ne by lra |].
  split; [apply reff_cancel |].
  unfold reff. by rewrite !is_zero_0.
Qed.

Lemma reff_flat_witness :
  reff (Finite 2) (Finite 0) = Return (Finite 2) /\
  reff (Finite 0) (Finite 2) = Return (Finite 2) /\
  reff (Finite 2) PlusInf = Return (Finite 2) /\
  reff PlusInf (Finite 2) = Return (Finite 2) /\
  reff (Finite 2) (Finite (- 2)) = Return (Finite 0) /\
  reff (Finite 0) (Finite 0) = Return (Finite 0).
Proof. apply (reff_flat 2). lra. Defined.

(** [reff] is symmetric in two finite radii, but not in two opposite
    infinite ones, of which it returns the second. *)
Theorem reff_symmetry a b :
  reff (Finite a) (Finite b) = reff (Finite b) (Finite a) /\
  reff PlusInf MinusInf = Return MinusInf /\
  reff MinusInf PlusInf = Return PlusInf.
Proof.
  split; [| done].
  destruct (Req_dec_T a 0) as [-> | Ha], (Req_dec_T b 0) as [-> | Hb]; try done.
  - by rewrite reff_zero_l, reff_zero_r.
  - by rewrite reff_zero_l, reff_zero_r.
  - destruct (Req_dec_T (a + b) 0) as [Hab | Hab].
    + replace b with (- a) by lra. rewrite reff_cancel.
      pose proof (reff_cancel (- a)) as H. rewrite Ropp_involutive in H.
      by rewrite H.
    + rewrite !reff_harmonic by lra. do 2 f_equal. field. done.
Qed.

Lemma eeff_returns r_x_1 r_y_1 r_x_2 r_y_2 :
  exists r_eff r_eff_x r_eff_y,
    reff r_x_1 r_x_2 = Return r_eff_x /\
    reff r_y_1 r_y_2 = Return r_eff_y /\
    reff r_eff_x r_eff_y = Return r_eff /\
    eeff r_x_1 r_y_1 r_x_2 r_y_2 = Return (r_eff, r_eff_x, r_eff_y).
Proof.
  assert (forall radius acc,
             exists acc',
               (if is_zero radius then Return (acc ++ [PlusInf])
                else let? q := py_recip radius in Return (acc ++ [q]))
               = Return acc') as Hstep.
  { intros [x | | |] acc; cbn [is_zero py_recip and_then]; eauto.
    destruct (Req_dec_T x 0); cbn [and_then]; eauto. }
  destruct (reff_returns r_x_1 r_x_2) as [r_eff_x Hx].
  destruct (reff_returns r_y_1 r_y_2) as [r_eff_y Hy].
  destruct (reff_returns r_eff_x r_eff_y) as [r_eff Hr].
  exists r_eff, r_eff_x, r_eff_y. repeat (split; [done |]).
  unfold eeff. cbn [for_loop].
  destruct (Hstep r_x_1 []) as [acc1 ->]. cbn [and_then].
  destruct (Hstep r_y_1 acc1) as [acc2 ->]. cbn [and_then].
  destruct (Hstep r_x_2 acc2) as [acc3 ->]. cbn [and_then].
  destruct (Hstep r_y_2 acc3) as [acc4 ->]. cbn [and_then].
  rewrite Hx. cbn [and_then]. rewrite Hy. cbn [and_then]. by rewrite Hr.
Qed.

Lemma reff_flat_or_convex r_1 r_2 :
  flat_or_convex r_1 -> flat_or_convex r_2 ->
  exists r, reff r_1 r_2 = Return r /\ flat_or_convex r.
Proof.
  destruct r_1 as [a | | |], r_2 as [b | | |]; cbn [flat_or_convex];
    intros H1 H2; try done.
  - destruct (Req_dec_T a 0) as [-> | Ha], (Req_dec_T b 0) as [-> | Hb].
    + exists (Finite 0). split; [| cbn; lra].
      unfold reff. by rewrite !is_zero_0.
    + exists (Finite b). split; [by apply reff_zero_l | done].
    + exists (Finite a). split; [by apply reff_zero_r | done].
    + rewrite reff_harmonic by lra. eexists. split; [done |].
      cbn [flat_or_convex].
      assert (0 < / a) by (apply Rinv_0_lt_compat; lra).
      assert (0 < / b) by (apply Rinv_0_lt_compat; lra).
      left. apply Rmult_lt_0_compat; [lra |].
      apply Rinv_0_lt_compat. lra.
  - destruct (Req_dec_T a 0) as [-> | Ha].
    + exists PlusInf. split; [| done]. unfold reff. by rewrite !is_zero_0.
    + exists (Finite a). split; [| done]. unfold reff. by rewrite !is_zero_ne.
  - destruct (Req_dec_T b 0) as [-> | Hb].
    + exists PlusInf. split; [| done]. unfold reff. by rewrite !is_zero_0.
    + exists (Finite b). split; [| done]. unfold reff. by rewrite !is_zero_ne.
  - by exists PlusInf.
Qed.

(** For four radii that are each zero, positive or plus infinity (flat or
    convex bodies), [eeff] raises nothing: its loop guards the division by a
    zero radius, and it returns [reff] of the two plane radii [reff] gives,
    all three again zero, positive or plus infinity. *)
Theorem eeff_never_raises r_x_1 r_y_1 r_x_2 r_y_2 :
  flat_or_convex r_x_1 -> flat_or_convex r_y_1 ->
  flat_or_convex r_x_2 -> flat_or_convex r_y_2 ->
  exists r_eff r_eff_x r_eff_y,
    reff r_x_1 r_x_2 = Return r_eff_x /\
    reff r_y_1 r_y_2 = Return r_eff_y /\
    reff r_eff_x r_eff_y = Return r_eff /\
    eeff r_x_1 r_y_1 r_x_2 r_y_2 = Return (r_eff, r_eff_x, r_eff_y) /\
    flat_or_convex r_eff /\ flat_or_convex r_eff_x /\ flat_or_convex r_eff_y.
Proof.
  intros Hx1 Hy1 Hx2 Hy2.
  destruct (reff_flat_or_convex r_x_1 r_x_2 Hx1 Hx2) as (rx & Hrx & Hcx).
  destruct (reff_flat_or_convex r_y_1 r_y_2 Hy1 Hy2) as (ry & Hry & Hcy).
  destruct (reff_flat_or_convex rx ry Hcx Hcy) as (r & Hr & Hc).
  destruct (eeff_returns r_x_1 r_y_1 r_x_2 r_y_2)
    as (r' & rx' & ry' & Hx' & Hy' & Hr' & Hrun).
  rewrite Hrx in Hx'. injection Hx' as <-.
  rewrite Hry in Hy'. injection Hy' as <-.
  rewrite Hr in Hr'. injection Hr' as <-.
  exists r, rx, ry. done.
Qed.

Lemma eeff_never_raises_witness :
  exists r_eff r_eff_x r_eff_y,
    reff (Finite 2) (Finite 0) = Return r_eff_x /\
    reff (Finite 3) PlusInf = Return r_eff_y /\
    reff r_eff_x r_eff_y = Return r_eff /\
    eeff (Finite 2) (Finite 3) (Finite 0) PlusInf
    = Return (r_eff, r_eff_x, r_eff_y) /\
    flat_or_convex r_eff /\ flat_or_convex r_eff_x /\ flat_or_convex r_eff_y.
Proof.
  apply (eeff_never_raises (Finite 2) (Finite 3) (Finite 0) PlusInf);
    cbn [flat_or_convex]; (lra || done).
Defined.

Lemma reff_positive a b :
  0 < a -> 0 < b ->
  exists r, reff (Finite a) (Finite b) = Return (Finite r) /\
            0 < r /\ 1 / r = 1 / a + 1 / b.
Proof.
  intros Ha Hb. rewrite reff_harmonic by lra.
  assert (0 < 1 / a + 1 / b) as Hs.
  { assert (0 < / a) by (by apply Rinv_0_lt_compat).
    assert (0 < / b) by (by apply Rinv_0_lt_compat). lra. }
  eexists. split; [done |]. split.
  - apply Rmult_lt_0_compat; [lra | by apply Rinv_0_lt_compat].
  - field. repeat split; lra.
Qed.

(** For four positive radii the reciprocal of the total effective radius is
    the sum of the four reciprocals. *)
Theorem eeff_reciprocal x1 y1 x2 y2 :
  0 < x1 -> 0 < y1 -> 0 < x2 -> 0 < y2 ->
  exists r rx ry,
    eeff (Finite x1) (Finite y1) (Finite x2) (Finite y2)
    = Return (Finite r, Finite rx, Finite ry) /\
    0 < r /\ 1 / rx = 1 / x1 + 1 / x2 /\ 1 / ry = 1 / y1 + 1 / y2 /\
    1 / r = 1 / x1 + 1 / y1 + 1 / x2 + 1 / y2.
Proof.
  intros Hx1 Hy1 Hx2 Hy2.
  destruct (reff_positive x1 x2 Hx1 Hx2) as (rx & Hrx & Hpx & Hix).
  destruct (reff_positive y1 y2 Hy1 Hy2) as (ry & Hry & Hpy & Hiy).
  destruct (reff_positive rx ry Hpx Hpy) as (r & Hr & Hp & Hi).
  destruct (eeff_returns (Finite x1) (Finite y1) (Finite x2) (Finite y2))
    as (r' & rx' & ry' & Hx' & Hy' & Hr' & Hrun).
  rewrite Hrx in Hx'. injection Hx' as <-.
  rewrite Hry in Hy'. injection Hy' as <-.
  rewrite Hr in Hr'. injection Hr' as <-.
  exists r, rx, ry. repeat (split; [done |]). lra.
Qed.

Lemma eeff_reciprocal_witness :
  exists r rx ry,
    eeff (Finite 1) (Finite 1) (Finite 1) (Finite 1)
    = Return (Finite r, Finite rx, Finite ry) /\
    0 < r /\ 1 / rx = 1 / 1 + 1 / 1 /\ 1 / ry = 1 / 1 + 1 / 1 /\
    1 / r = 1 / 1 + 1 / 1 + 1 / 1 + 1 / 1.
Proof. apply (eeff_reciprocal 1 1 1 1); lra. Defined.

(** A ball of radius [r] on a flat, the flat written with radius 0: the
    effective radii in both planes are [r], the total one is [r / 2]. *)
Theorem eeff_ball_on_flat r :
  r <> 0 ->
  eeff (Finite r) (Finite r) (Finite 0) (Finite 0)
  = Return (Finite (r / 2), Finite r, Finite r).
Proof.
  intros Hr.
  destruct (eeff_returns (Finite r) (Finite r) (Finite 0) (Finite 0))
    as (r' & rx' & ry' & Hx' & Hy' & Hr' & ->).
  rewrite (reff_zero_r r Hr) in Hx', Hy'. injection Hx' as <-. injection Hy' as <-.
  rewrite reff_harmonic in Hr' by lra.
  replace (1 / (1 / r + 1 / r)) with (r / 2) in Hr' by (field; done).
  by injection Hr' as <-.
Qed.

Lemma eeff_ball_on_flat_witness :
  2 <> 0 /\
  eeff (Finite 2) (Finite 2) (Finite 0) (Finite 0)
  = Return (Finite (2 / 2), Finite 2, Finite 2).
Proof. split; [lra |]. apply (eeff_ball_on_flat 2). lra. Defined.


(** For positive moduli and Poisson ratios of square below 1, [meff] returns
    a positive modulus [E] with
    [1 / E = (1 - nu_1²) / (2 e_1) + (1 - nu_2²) / (2 e_2)]; for two bodies of
    one material that is [e / (1 - nu²)]. *)
Theorem meff_value e_1 nu_1 e_2 nu_2 :
  0 < e_1 -> 0 < e_2 -> nu_1 ^ 2 < 1 -> nu_2 ^ 2 < 1 ->
  exists E,
    meff e_1 nu_1 e_2 nu_2 = Return E /\ 0 < E /\
    1 / E = (1 - nu_1 ^ 2) / (2 * e_1) + (1 - nu_2 ^ 2) / (2 * e_2) /\
    (e_1 = e_2 -> nu_1 = nu_2 -> E = e_1 / (1 - nu_1 ^ 2)).
Proof.
  intros He1 He2 Hn1 Hn2.
  assert (0 < (1 - nu_1 ^ 2) / (2 * e_1)) as Hc1
    by (apply Rmult_lt_0_compat; [lra | apply Rinv_0_lt_compat; lra]).
  assert (0 < (1 - nu_2 ^ 2) / (2 * e_2)) as Hc2
    by (apply Rmult_lt_0_compat; [lra | apply Rinv_0_lt_compat; lra]).
  unfold meff. rewrite !py_div_nonzero by lra. cbn [and_then].
  rewrite py_div_nonzero by lra.
  set (c := (1 - nu_1 ^ 2) / (2 * e_1) + (1 - nu_2 ^ 2) / (2 * e_2)) in *.
  assert (0 < c) as Hc by (unfold c; lra).
  exists (1 / c). split; [done |].
  split; [apply Rmult_lt_0_compat; [lra | by apply Rinv_0_lt_compat] |].
  split; [field; lra |].
  intros <- <-. unfold c. field. split; lra.
Qed.

Lemma meff_value_witness :
  exists E,
    meff 2 0 2 0 = Return E /\ 0 < E /\
    1 / E = (1 - 0 ^ 2) / (2 * 2) + (1 - 0 ^ 2) / (2 * 2) /\
    (2 = 2 -> 0 = 0 -> E = 2 / (1 - 0 ^ 2)).
Proof. apply (meff_value 2 0 2 0); lra. Defined.

(** Swapping the two bodies does not change [meff], exceptions included. *)
Theorem meff_swap e_1 nu_1 e_2 nu_2 :
  meff e_1 nu_1 e_2 nu_2 = meff e_2 nu_2 e_1 nu_1.
Proof.
  unfold meff, py_div.
  destruct (Req_dec_T (2 * e_1) 0), (Req_dec_T (2 * e_2) 0);
    cbn [and_then]; try done.
  rewrite (Rplus_comm ((1 - nu_2 ^ 2) / (2 * e_2))).
  done.
Qed.


(** ** Abbott-Firestone curve *)

Lemma foldl_Rmax_ge vs : forall v, v <= foldl Rmax v vs.
Proof.
  induction vs as [| x vs IH]; intros v; simpl; [lra |].
  etransitivity; [apply (Rmax_l v x) | apply IH].
Qed.

Lemma foldl_Rmax_upper vs : forall v x, x ∈ v :: vs -> x <= foldl Rmax v vs.
Proof.
  induction vs as [| w vs IH]; intros v x Hx; simpl.
  - apply list_elem_of_singleton in Hx. subst. lra.
  - apply elem_of_cons in Hx as [-> | Hx].
    + etransitivity; [apply (Rmax_l v w) | apply foldl_Rmax_ge].
    + apply elem_of_cons in Hx as [-> | Hx].
      * etransitivity; [apply (Rmax_r v w) | apply foldl_Rmax_ge].
      * apply IH. by right.
Qed.

Lemma foldl_Rmax_elem vs : forall v, foldl Rmax v vs ∈ v :: vs.
Proof.
  induction vs as [| w vs IH]; intros v; simpl; [by left |].
  specialize (IH (Rmax v w)).
  apply elem_of_cons in IH as [-> | IH]; [| by do 2 right].
  unfold Rmax. destruct (Rle_dec v w); [right; by left | by left].
Qed.

(** The extremes of a non-empty trace. *)
Lemma trace_extremes (trace : list R) :
  trace <> [] ->
  exists top bottom,
    np_amax trace = Return top /\ np_amin trace = Return bottom /\
    top ∈ trace /\ bottom ∈ trace /\
    forall t, t ∈ trace -> bottom <= t <= top.
Proof.
  intros Hne. destruct trace as [| v vs]; [done |].
  exists (foldl Rmax v vs), (foldl Rmin v vs).
  split; [done |]. split; [done |].
  split; [apply foldl_Rmax_elem |]. split; [apply foldl_Rmin_elem |].
  intros t Ht. split; [by apply foldl_Rmin_lower | by apply foldl_Rmax_upper].
Qed.

(** The samples of [np.linspace]. *)
Lemma np_linspace_samples start stop num :
  (0 <= num)%Z ->
  exists samples,
    np_linspace start stop num = Return samples /\
    length samples = Z.to_nat num /\
    forall i, (i < Z.to_nat num)%nat ->
      samples !! i
      = Some (start + INR i * ((stop - start) / IZR (num - 1))).
Proof.
  intros Hnum. unfold np_linspace. rewrite decide_False by lia.
  set (n := Z.to_nat num).
  set (y := (fun v => v + start) <$>
            (if decide (0 < num - 1)%Z
             then (fun v => v * ((stop - start) / IZR (num - 1))) <$> (INR <$> seq 0 n)
             else (fun v => v * (stop - start)) <$> (INR <$> seq 0 n))).
  assert (length y = n) as Hlen.
  { unfold y. rewrite length_fmap.
    case_decide; by rewrite !length_fmap, length_seq. }
  assert (forall i, (i < n)%nat ->
            y !! i = Some (start + INR i * ((stop - start) / IZR (num - 1))))
    as Hy.
  { intros i Hi. unfold y. rewrite list_lookup_fmap. case_decide.
    - rewrite !list_lookup_fmap, lookup_seq_lt by done. simpl. f_equal. lra.
    - rewrite !list_lookup_fmap, lookup_seq_lt by done. simpl.
      assert (i = 0%nat) as -> by lia. simpl. f_equal. lra. }
  eexists. split; [done |]. case_decide as Hmany.
  - split; [by rewrite length_insert |]. intros i Hi.
    destruct (decide (i = (n - 1)%nat)) as [-> | Hne].
    + rewrite list_lookup_insert_eq by lia. f_equal.
      assert (INR (n - 1) = IZR (num - 1)) as ->.
      { rewrite INR_IZR_INZ. f_equal. lia. }
      assert (IZR (num - 1) <> 0) by (apply not_0_IZR; lia).
      field. done.
    + rewrite list_lookup_insert_ne by done. by apply Hy.
  - split; [done |]. done.
Qed.

(** More of the trace lies above a lower basket. *)
Lemma count_at_least_mono (trace : list R) b1 b2 :
  b1 <= b2 -> (count_at_least trace b2 <= count_at_least trace b1)%nat.
Proof.
  intros Hb. unfold count_at_least.
  induction trace as [| t trace IH]; [done |].
  rewrite !filter_cons. destruct (decide (b2 <= t)) as [H2 | H2].
  - rewrite decide_True by lra. simpl. lia.
  - destruct (decide (b1 <= t)); simpl; lia.
Qed.

Lemma count_at_least_all (trace : list R) b :
  (forall t, t ∈ trace -> b <= t) ->
  count_at_least trace b = length trace.
Proof.
  intros Hall. unfold count_at_least.
  induction trace as [| t trace IH]; [done |].
  rewrite filter_cons, decide_True by (apply Hall; by left).
  simpl. f_equal. apply IH. intros t' Ht'. apply Hall. by right.
Qed.

Lemma count_at_least_some (trace : list R) b t :
  t ∈ trace -> b <= t -> (1 <= count_at_least trace b)%nat.
Proof.
  intros Ht Hb. unfold count_at_least.
  assert (t ∈ filter (fun t => b <= t) trace) as Hin
    by (by apply list_elem_of_filter).
  destruct (filter _ trace); [by apply elem_of_nil in Hin | simpl; lia].
Qed.

(** The loop of [abbottfirestone] appends one value per basket. *)
Lemma cum_dist_loop (trace : list R) res baskets :
  trace <> [] ->
  forall acc,
    for_loop (fun cum_dist basket =>
                let? share := py_div (INR (count_at_least trace basket))
                                     (INR (length trace)) in
                Return (cum_dist ++ [share * IZR res]))
             baskets acc
    = Return (acc ++ ((fun basket =>
                         INR (count_at_least trace basket)
                         / INR (length trace) * IZR res) <$> baskets)).
Proof.
  intros Hne.
  assert (INR (length trace) <> 0) as Hlen.
  { apply not_0_INR. by destruct trace. }
  induction baskets as [| b baskets IH]; intros acc; csimpl.
  - by rewrite app_nil_r.
  - rewrite py_div_nonzero by done. cbn [and_then].
    rewrite IH. by rewrite <- app_assoc.
Qed.

Lemma abbottfirestone_run (trace : list R) res :
  trace <> [] -> (0 <= res)%Z ->
  exists top bottom baskets,
    np_amax trace = Return top /\ np_amin trace = Return bottom /\
    np_linspace top bottom res = Return baskets /\
    abbottfirestone trace res
    = Return (baskets,
              (fun basket => INR (count_at_least trace basket)
                             / INR (length trace) * IZR res) <$> baskets).
Proof.
  intros Hne Hres.
  destruct (trace_extremes trace Hne) as (top & bottom & Htop & Hbot & _).
  destruct (np_linspace_samples top bottom res Hres) as (baskets & Hrun & _).
  exists top, bottom, baskets. repeat (split; [done |]).
  unfold abbottfirestone. rewrite Htop, Hbot. cbn [and_then].
  rewrite Hrun. cbn [and_then].
  by rewrite (cum_dist_loop trace res baskets Hne []).
Qed.

(** Each basket lies between the extremes, and later baskets are lower. *)
Lemma baskets_between top bottom res baskets :
  bottom <= top -> (0 <= res)%Z ->
  np_linspace top bottom res = Return baskets ->
  (forall i b, baskets !! i = Some b -> bottom <= b <= top) /\
  (forall i j bi bj, (i <= j)%nat ->
     baskets !! i = Some bi -> baskets !! j = Some bj -> bj <= bi) /\
  (forall b, baskets !! 0%nat = Some b -> b = top) /\
  ((1 < res)%Z -> baskets !! (Z.to_nat res - 1)%nat = Some bottom).
Proof.
  intros Hle Hres Hrun.
  destruct (np_linspace_samples top bottom res Hres) as (l & Hrun' & Hlen & Hval).
  rewrite Hrun in Hrun'. injection Hrun' as <-.
  assert (forall i, (i < Z.to_nat res)%nat ->
            0 <= INR i * ((top - bottom) / IZR (res - 1)) <= top - bottom)
    as Hstep.
  { intros i Hi. destruct (decide (res = 1)%Z) as [-> | Hne].
    - assert (i = 0%nat) as -> by lia. simpl. lra.
    - assert (0 < IZR (res - 1)) as Hd by (apply IZR_lt; lia).
      assert (INR i <= IZR (res - 1)) as Hi'
        by (rewrite INR_IZR_INZ; apply IZR_le; lia).
      pose proof (pos_INR i) as Hpos.
      set (d := IZR (res - 1)) in *.
      assert ((top - bottom) / d * d = top - bottom) as Hq by (field; lra).
      assert (0 <= (top - bottom) / d)
        by (apply Rmult_le_pos; [lra | left; by apply Rinv_0_lt_compat]).
      nra. }
  assert (forall i, (i < Z.to_nat res)%nat ->
            baskets !! i
            = Some (top - INR i * ((top - bottom) / IZR (res - 1)))) as Hval'.
  { intros i Hi. rewrite Hval by done. f_equal. unfold Rdiv. lra. }
  split; [| split; [| split]].
  - intros i b Hb. apply lookup_lt_Some in Hb as Hi. rewrite Hlen in Hi.
    rewrite Hval' in Hb by done. injection Hb as <-.
    specialize (Hstep i Hi). lra.
  - intros i j bi bj Hij Hi Hj.
    apply lookup_lt_Some in Hi as Hi'. apply lookup_lt_Some in Hj as Hj'.
    rewrite Hlen in Hi', Hj'.
    rewrite Hval' in Hi, Hj by done. injection Hi as <-. injection Hj as <-.
    assert (INR i <= INR j) by (by apply le_INR).
    destruct (decide (res = 1)%Z) as [-> | Hne].
    + assert (i = 0%nat) as -> by lia. assert (j = 0%nat) as -> by lia. lra.
    + assert (0 <= (top - bottom) / IZR (res - 1)).
      { apply Rmult_le_pos; [lra |]. left. apply Rinv_0_lt_compat.
        apply IZR_lt. lia. }
      nra.
  - intros b Hb. apply lookup_lt_Some in Hb as Hi. rewrite Hlen in Hi.
    rewrite Hval' in Hb by done. injection Hb as <-. simpl. lra.
  - intros Hmany. rewrite Hval' by lia. f_equal.
    assert (INR (Z.to_nat res - 1) = IZR (res - 1)) as ->.
    { rewrite INR_IZR_INZ. f_equal. lia. }
    assert (IZR (res - 1) <> 0) by (apply not_0_IZR; lia).
    field. done.
Qed.

(** [abbottfirestone] raises ValueError on an empty trace (the maximum of an
    empty array) and on a negative [res] (a negative number of samples). *)
Theorem abbottfirestone_errors (trace : list R) res :
  abbottfirestone [] res = Throw (Exn ValueError) /\
  ((res < 0)%Z -> abbottfirestone trace res = Throw (Exn ValueError)).
Proof.
  split; [done |]. intros Hres. unfold abbottfirestone.
  destruct trace as [| v vs]; [done |]. cbn [np_amax np_amin and_then].
  unfold np_linspace. by rewrite decide_True by lia.
Qed.

Lemma abbottfirestone_errors_witness :
  abbottfirestone [] 100 = Throw (Exn ValueError) /\
  abbottfirestone [1; 2] (-1) = Throw (Exn ValueError).
Proof.
  split.
  - apply (proj1 (abbottfirestone_errors [] 100)).
  - apply (proj2 (abbottfirestone_errors [1; 2] (-1))). lia.
Defined.

(** On a non-empty trace and [res >= 0], [abbottfirestone] returns [res]
    baskets and [res] values, the i-th value being the share of the trace at
    or above the i-th basket, times [res]; with [res = 0] both are empty. *)
Theorem abbottfirestone_shape (trace : list R) res :
  trace <> [] -> (0 <= res)%Z ->
  exists baskets cum_dist,
    abbottfirestone trace res = Return (baskets, cum_dist) /\
    length baskets = Z.to_nat res /\ length cum_dist = Z.to_nat res /\
    forall i basket,
      baskets !! i = Some basket ->
      cum_dist !! i
      = Some (INR (count_at_least trace basket) / INR (length trace) * IZR res).
Proof.
  intros Hne Hres.
  destruct (abbottfirestone_run trace res Hne Hres)
    as (top & bottom & baskets & _ & _ & Hlin & ->).
  destruct (np_linspace_samples top bottom res Hres) as (l & Hl & Hlen & _).
  rewrite Hlin in Hl. injection Hl as <-.
  eexists _, _. split; [done |]. split; [done |].
  split; [by rewrite length_fmap |].
  intros i basket Hb. by rewrite list_lookup_fmap, Hb.
Qed.

Lemma abbottfirestone_shape_witness :
  exists baskets cum_dist,
    abbottfirestone [1; 2] 3 = Return (baskets, cum_dist) /\
    length baskets = Z.to_nat 3 /\ length cum_dist = Z.to_nat 3 /\
    forall i basket,
      baskets !! i = Some basket ->
      cum_dist !! i
      = Some (INR (count_at_least [1; 2] basket) / INR (length [1; 2]%R) * IZR 3).
Proof. apply (abbottfirestone_shape [1; 2] 3); [done | lia]. Defined.

(** The baskets run from the highest point of the trace down to the lowest:
    the first is the maximum, the last (for [res > 1]) the minimum, and none
    is higher than an earlier one. *)
Theorem abbottfirestone_baskets (trace : list R) res :
  trace <> [] -> (0 <= res)%Z ->
  exists baskets cum_dist top bottom,
    abbottfirestone trace res = Return (baskets, cum_dist) /\
    np_amax trace = Return top /\ np_amin trace = Return bottom /\
    (forall b, baskets !! 0%nat = Some b -> b = top) /\
    ((1 < res)%Z -> baskets !! (Z.to_nat res - 1)%nat = Some bottom) /\
    forall i j bi bj, (i <= j)%nat ->
      baskets !! i = Some bi -> baskets !! j = Some bj -> bj <= bi.
Proof.
  intros Hne Hres.
  destruct (abbottfirestone_run trace res Hne Hres)
    as (top & bottom & baskets & Htop & Hbot & Hlin & ->).
  destruct (trace_extremes trace Hne)
    as (top' & bottom' & Htop' & Hbot' & Hin & _ & Hall).
  rewrite Htop in Htop'. injection Htop' as <-.
  rewrite Hbot in Hbot'. injection Hbot' as <-.
  destruct (baskets_between top bottom res baskets) as (_ & Hmono & Hfirst & Hlast);
    [destruct (Hall top Hin); lra | done | done |].
  eexists _, _, top, bottom. repeat (split; [done |]). done.
Qed.

Lemma abbottfirestone_baskets_witness :
  exists baskets cum_dist top bottom,
    abbottfirestone [1; 2] 3 = Return (baskets, cum_dist) /\
    np_amax [1; 2] = Return top /\ np_amin [1; 2] = Return bottom /\
    (forall b, baskets !! 0%nat = Some b -> b = top) /\
    ((1 < 3)%Z -> baskets !! (Z.to_nat 3 - 1)%nat = Some bottom) /\
    forall i j bi bj, (i <= j)%nat ->
      baskets !! i = Some bi -> baskets !! j = Some bj -> bj <= bi.
Proof. apply (abbottfirestone_baskets [1; 2] 3); [done | lia]. Defined.

(** The cumulative distribution never decreases along the baskets. *)
Theorem abbottfirestone_monotone (trace : list R) res :
  trace <> [] -> (0 <= res)%Z ->
  exists baskets cum_dist,
    abbottfirestone trace res = Return (baskets, cum_dist) /\
    forall i j ci cj, (i <= j)%nat ->
      cum_dist !! i = Some ci -> cum_dist !! j = Some cj -> ci <= cj.
Proof.
  intros Hne Hres.
  destruct (abbottfirestone_run trace res Hne Hres)
    as (top & bottom & baskets & Htop & Hbot & Hlin & ->).
  destruct (trace_extremes trace Hne)
    as (top' & bottom' & Htop' & Hbot' & Hin & _ & Hall).
  rewrite Htop in Htop'. injection Htop' as <-.
  rewrite Hbot in Hbot'. injection Hbot' as <-.
  destruct (baskets_between top bottom res baskets) as (_ & Hmono & _);
    [destruct (Hall top Hin); lra | done | done |].
  eexists _, _. split; [done |].
  intros i j ci cj Hij Hi Hj.
  rewrite list_lookup_fmap in Hi, Hj.
  destruct (baskets !! i) as [bi |] eqn:Ebi; [| done].
  destruct (baskets !! j) as [bj |] eqn:Ebj; [| done].
  injection Hi as <-. injection Hj as <-.
  pose proof (Hmono i j bi bj Hij Ebi Ebj) as Hb.
  pose proof (count_at_least_mono trace bj bi Hb) as Hc.
  apply le_INR in Hc.
  assert (0 < INR (length trace)) as Hlen
    by (apply lt_0_INR; destruct trace; [done | simpl; lia]).
  assert (0 <= IZR res) as Hr by (by apply IZR_le).
  apply Rmult_le_compat_r; [done |].
  apply Rmult_le_compat_r; [| done].
  left. by apply Rinv_0_lt_compat.
Qed.

Lemma abbottfirestone_monotone_witness :
  exists baskets cum_dist,
    abbottfirestone [1; 2] 3 = Return (baskets, cum_dist) /\
    forall i j ci cj, (i <= j)%nat ->
      cum_dist !! i = Some ci -> cum_dist !! j = Some cj -> ci <= cj.
Proof. apply (abbottfirestone_monotone [1; 2] 3); [done | lia]. Defined.

(** Every value of the distribution lies between [res / len(trace)] (the
    highest point is in every basket) and [res]; for [res > 1] the last
    value is [res]. *)
Theorem abbottfirestone_bounds (trace : list R) res :
  trace <> [] -> (0 <= res)%Z ->
  exists baskets cum_dist,
    abbottfirestone trace res = Return (baskets, cum_dist) /\
    (forall i c, cum_dist !! i = Some c ->
                 IZR res / INR (length trace) <= c <= IZR res) /\
    ((1 < res)%Z -> cum_dist !! (Z.to_nat res - 1)%nat = Some (IZR res)).
Proof.
  intros Hne Hres.
  destruct (abbottfirestone_run trace res Hne Hres)
    as (top & bottom & baskets & Htop & Hbot & Hlin & ->).
  destruct (trace_extremes trace Hne)
    as (top' & bottom' & Htop' & Hbot' & Hin & _ & Hall).
  rewrite Htop in Htop'. injection Htop' as <-.
  rewrite Hbot in Hbot'. injection Hbot' as <-.
  destruct (baskets_between top bottom res baskets) as (Hbtw & _ & _ & Hlast);
    [destruct (Hall top Hin); lra | done | done |].
  assert (0 < INR (length trace)) as Hlen
    by (apply lt_0_INR; destruct trace; [done | simpl; lia]).
  assert (0 <= IZR res) as Hr by (by apply IZR_le).
  eexists _, _. split; [done |]. split.
  - intros i c Hc. rewrite list_lookup_fmap in Hc.
    destruct (baskets !! i) as [b |] eqn:Eb; [| done]. injection Hc as <-.
    destruct (Hbtw i b Eb) as [_ Hb].
    pose proof (count_at_least_some trace b top Hin Hb) as Hone.
    apply le_INR in Hone. change (INR 1) with 1 in Hone.
    assert (count_at_least trace b <= length trace)%nat as Hmax
      by apply length_filter.
    apply le_INR in Hmax.
    set (k := INR (count_at_least trace b)) in *.
    set (n := INR (length trace)) in *.
    assert (0 < / n) as Hinv by (by apply Rinv_0_lt_compat).
    assert (k / n <= 1).
    { apply Rmult_le_reg_r with n; [done |].
      unfold Rdiv. rewrite Rmult_assoc, Rinv_l by lra. lra. }
    assert (/ n <= k / n) by (unfold Rdiv; nra).
    split; [unfold Rdiv in *; nra | nra].
  - intros Hmany. rewrite list_lookup_fmap, (Hlast Hmany). simpl. f_equal.
    rewrite count_at_least_all by (intros t Ht; by destruct (Hall t Ht)).
    field. lra.
Qed.

Lemma abbottfirestone_bounds_witness :
  exists baskets cum_dist,
    abbottfirestone [1; 2] 3 = Return (baskets, cum_dist) /\
    (forall i c, cum_dist !! i = Some c ->
                 IZR 3 / INR (length [1; 2]%R) <= c <= IZR 3) /\
    ((1 < 3)%Z -> cum_dist !! (Z.to_nat 3 - 1)%nat = Some (IZR 3)).
Proof. apply (abbottfirestone_bounds [1; 2] 3); [done | lia]. Defined.

(** * profrevolve on floats: agreement with the real model *)

Lemma max_float_ge_4 : 4 <= max_float.
Proof. unfold max_float. apply IZR_le. vm_compute. discriminate. Qed.

Lemma f64_of_finite x : - max_float <= x <= max_float -> f64_of x = Finite x.
Proof.
  intros [Hlo Hhi]. unfold f64_of.
  destruct (Rlt_dec max_float x); [lra |].
  destruct (Rlt_dec x (- max_float)); [lra | done].
Qed.

Lemma f64_of_above x : max_float < x -> f64_of x = PlusInf.
Proof. intros H. unfold f64_of. destruct (Rlt_dec max_float x); [done | lra]. Qed.

Lemma f64_sub_finite x y :
  - max_float <= x - y <= max_float ->
  f64_sub (Finite x) (Finite y) = Finite (x - y).
Proof.
  intros H. unfold f64_sub. cbn [py_neg f64_add].
  replace (x + - y) with (x - y) by lra. by apply f64_of_finite.
Qed.

Lemma f64_mul_finite x y :
  - max_float <= x * y <= max_float ->
  f64_mul (Finite x) (Finite y) = Finite (x * y).
Proof. intros H. cbn [f64_mul]. by apply f64_of_finite. Qed.

Lemma Rabs_le_bounds x a : Rabs x <= a -> - a <= x <= a.
Proof.
  intros H. pose proof (Rle_abs x). pose proof (Rle_abs (- x)) as Hn.
  rewrite Rabs_Ropp in Hn. lra.
Qed.

(** A number whose square fits in the float range is at most half the range. *)
Lemma half_range a : a ^ 2 <= max_float -> Rabs a <= max_float / 2.
Proof.
  intros H. pose proof max_float_ge_4 as HM.
  apply Rabs_le. split; nra.
Qed.

Lemma np_sign_bound x : -1 <= np_sign x <= 1.
Proof. destruct (np_sign_cases x) as [[_ ->] | [[_ ->] | [_ ->]]]; lra. Qed.

(** The quantities of lines 52-57 under [squares_in_range]. *)
Lemma cell_ranges y_diam p y :
  Rabs y_diam <= max_float ->
  (y_diam / 2 - np_sign y_diam * p) ^ 2 <= max_float ->
  y ^ 2 <= max_float ->
  let a := y_diam / 2 - np_sign y_diam * p in
  Rabs (np_sign y_diam * p) <= max_float /\
  Rabs a <= max_float / 2 /\
  0 <= a * a <= max_float /\
  Rabs (bracket y_diam p y) <= max_float /\
  (0 <= bracket y_diam p y -> sqrt (bracket y_diam p y) <= max_float / 2) /\
  Rabs (cell_value y_diam p y - Rabs y_diam / 2) <= max_float / 2.
Proof.
  intros Hd Ha Hy a. fold a in Ha.
  pose proof max_float_ge_4 as HM.
  pose proof (half_range a Ha) as Habs.
  pose proof (Rabs_pos y_diam) as Hdpos.
  assert (0 <= a ^ 2) as Ha0 by apply pow2_ge_0.
  assert (0 <= y ^ 2) as Hy0 by apply pow2_ge_0.
  assert (bracket y_diam p y = a ^ 2 - y ^ 2) as Hb by done.
  assert (0 <= bracket y_diam p y -> sqrt (bracket y_diam p y) <= max_float / 2)
    as Hroot.
  { intros Hb0. etransitivity; [| exact Habs].
    rewrite <- (sqrt_pow2_abs a). apply sqrt_le_1_alt. lra. }
  split.
  { replace (np_sign y_diam * p) with (y_diam / 2 - a) by (unfold a; lra).
    apply Rabs_le.
    pose proof (Rle_abs y_diam). pose proof (Rle_abs (- y_diam)) as Hn.
    rewrite Rabs_Ropp in Hn.
    pose proof (Rle_abs a). pose proof (Rle_abs (- a)) as Hna.
    rewrite Rabs_Ropp in Hna. lra. }
  split; [done |]. split; [lra |].
  split; [rewrite Hb; apply Rabs_le; lra |]. split; [done |].
  unfold cell_value. destruct (Rle_dec (bracket y_diam p y) 0) as [Hle | Hgt].
  - replace (Rabs y_diam / 2 - Rabs y_diam / 2) with 0 by lra.
    rewrite Rabs_R0. lra.
  - assert (0 <= sqrt (bracket y_diam p y)) as Hs0 by apply sqrt_pos.
    specialize (Hroot ltac:(lra)).
    pose proof (np_sign_bound y_diam) as Hs.
    apply Rabs_le. split; nra.
Qed.

Lemma item_Some {A} (l : list A) i x : l !! i = Some x -> item l i = Got x.
Proof. intros H. unfold item. by rewrite H. Qed.

Lemma index64_nat n i : (i < n)%nat -> index64 n (Z.of_nat i) = Got i.
Proof. intros H. unfold index64. by rewrite np_index_nat. Qed.

Lemma nd64_setitem_of a i j v :
  (i < nd_rows a)%nat -> (j < nd_cols a)%nat ->
  nd64_setitem (nd64_of a) (Z.of_nat i) (Z.of_nat j) (Finite v)
  = Got (nd64_of (NdArray (nd_rows a) (nd_cols a)
                          (alter (<[j := v]>) i (nd_data a)))).
Proof.
  intros Hi Hj. unfold nd64_setitem, nd64_of. cbn [nd64_rows nd64_cols nd64_data].
  rewrite !index64_nat by done. cbn [attempt_bind nd_rows nd_cols nd_data].
  do 2 f_equal. symmetry. apply list_fmap_alter.
  apply Forall_forall. intros row _. apply list_fmap_insert.
Qed.

Lemma pow2_of_finite kind y :
  y ^ 2 <= max_float -> pow2_of kind y = Got (Finite (y ^ 2)).
Proof.
  intros Hy. destruct kind; unfold pow2_of.
  - destruct (Rlt_dec max_float (y ^ 2)); [lra | done].
  - assert (0 <= y ^ 2) by apply pow2_ge_0. pose proof max_float_ge_4.
    rewrite f64_mul_finite by nra. do 2 f_equal. ring.
Qed.

(** One iteration on floats stores the float of the real cell value. *)
Lemma fill_cell64_of kind (prof_2d y_axis : list R) y_diam a i_x i_y p y :
  prof_2d !! i_x = Some p -> y_axis !! i_y = Some y ->
  (i_x < nd_rows a)%nat -> (i_y < nd_cols a)%nat ->
  Rabs y_diam <= max_float ->
  (y_diam / 2 - np_sign y_diam * p) ^ 2 <= max_float ->
  y ^ 2 <= max_float ->
  fill_cell64 kind prof_2d y_axis y_diam i_x (nd64_of a) i_y
  = Got (nd64_of (NdArray (nd_rows a) (nd_cols a)
                          (alter (<[i_y := cell_value y_diam p y]>) i_x
                                 (nd_data a)))).
Proof.
  intros Hp Hy Hi Hj Hd Ha Hy2.
  destruct (cell_ranges y_diam p y Hd Ha Hy2)
    as (Hsp & Habs & Hsq & Hbr & Hroot & Hcell).
  pose proof max_float_ge_4 as HM.
  pose proof (Rabs_pos y_diam) as Hdpos.
  apply Rabs_le_bounds in Hsp, Habs, Hbr.
  unfold fill_cell64.
  rewrite (item_Some _ _ _ Hp). cbn [attempt_bind].
  rewrite f64_mul_finite by lra.
  rewrite f64_sub_finite by lra.
  rewrite f64_mul_finite by lra.
  rewrite (item_Some _ _ _ Hy). cbn [attempt_bind].
  rewrite pow2_of_finite by done. cbn [attempt_bind].
  set (base := y_diam / 2 - np_sign y_diam * p) in *.
  assert (base * base - y ^ 2 = bracket y_diam p y) as Hb
    by (unfold bracket; fold base; ring).
  rewrite f64_sub_finite by (rewrite Hb; lra). rewrite Hb.
  unfold cell_value, f64_le0.
  destruct (Rle_dec (bracket y_diam p y) 0) as [Hle | Hgt].
  - by apply nd64_setitem_of.
  - cbn [math_sqrt64].
    destruct (Rlt_dec (bracket y_diam p y) 0); [lra |]. cbn [attempt_bind].
    assert (0 <= sqrt (bracket y_diam p y)) as Hs0 by apply sqrt_pos.
    specialize (Hroot ltac:(lra)).
    pose proof (np_sign_bound y_diam) as Hs.
    rewrite f64_mul_finite by (split; nra).
    rewrite f64_sub_finite by (split; nra).
    by apply nd64_setitem_of.
Qed.

(** A loop on floats follows the loop on reals while each iteration does. *)
Lemma for_every_of {A S T} (emb : S -> T) (Inv : S -> Prop)
      (body : S -> A -> result S) (body64 : T -> A -> attempt T) (l : list A) :
  (forall s x, x ∈ l -> Inv s ->
     exists s', body s x = Ok s' /\ Inv s' /\ body64 (emb s) x = Got (emb s')) ->
  forall s, Inv s ->
    exists s', for_each body l s = Ok s' /\ Inv s' /\
               for_every body64 l (emb s) = Got (emb s').
Proof.
  induction l as [| x l IH]; intros Hstep s Hs; cbn [for_each for_every].
  - by exists s.
  - destruct (Hstep s x) as (s1 & -> & Hs1 & ->); [by left | done |].
    cbn [bind attempt_bind]. apply IH; [| done].
    intros s' x' Hx'. apply Hstep. by right.
Qed.

Lemma np_zeros64_of n m : np_zeros64 n m = nd64_of (np_zeros n m).
Proof.
  unfold np_zeros64, nd64_of, np_zeros. cbn [nd_rows nd_cols nd_data].
  by rewrite !fmap_replicate.
Qed.

Section FloatLoops.

Variables (y_kind : vector_kind) (prof_2d y_axis : list R) (y_diam : R).
Hypothesis Hrange : squares_in_range prof_2d y_axis y_diam.

Let shape (a : ndarray) : Prop :=
  nd_rows a = length prof_2d /\ nd_cols a = length y_axis.

Lemma fill_row64_of a i_x :
  (i_x < length prof_2d)%nat -> shape a ->
  exists a',
    fill_row prof_2d y_axis y_diam a i_x = Ok a' /\ shape a' /\
    fill_row64 y_kind prof_2d y_axis y_diam (nd64_of a) i_x = Got (nd64_of a').
Proof.
  intros Hi Ha. destruct Hrange as (Hd & Hps & Hys).
  destruct (lookup_lt_is_Some_2 prof_2d i_x Hi) as [p Hp].
  pose proof (Forall_lookup_1 _ _ _ _ Hps Hp) as Hpr. cbv beta in Hpr.
  unfold fill_row, fill_row64.
  apply (for_every_of nd64_of shape); [| done].
  intros s i_y Hin [Hr Hc].
  apply elem_of_seq in Hin as [_ Hin].
  destruct (lookup_lt_is_Some_2 y_axis i_y) as [y Hy]; [lia |].
  pose proof (Forall_lookup_1 _ _ _ _ Hys Hy) as Hyr. cbv beta in Hyr.
  eexists. split; [apply (fill_cell_Some _ _ _ s i_x i_y p y); (done || lia) |].
  split; [done |].
  apply fill_cell64_of; (done || lia).
Qed.

(** Within the float range the loops on floats leave the float of the real
    grid. *)
Lemma raw_grid64_of :
  raw_grid64 y_kind prof_2d y_axis y_diam
  = Got (nd64_of (grid_of prof_2d y_axis y_diam)).
Proof.
  unfold raw_grid64. rewrite np_zeros64_of.
  destruct (for_every_of nd64_of shape
              (fill_row prof_2d y_axis y_diam)
              (fill_row64 y_kind prof_2d y_axis y_diam)
              (range (length prof_2d)))
    with (s := np_zeros (length prof_2d) (length y_axis))
    as (a' & Hrun & _ & ->); [| done |].
  - intros s i_x Hin Hs. apply elem_of_seq in Hin as [_ Hin].
    apply fill_row64_of; [lia | done].
  - pose proof (raw_grid_eq prof_2d y_axis y_diam) as Heq.
    unfold raw_grid in Heq. rewrite Hrun in Heq. by injection Heq as ->.
Qed.

End FloatLoops.

(** ** Reading and normalising the float grid *)

Lemma concat_fmap_Finite (rows : list (list R)) :
  concat ((fun row : list R => Finite <$> row) <$> rows) = Finite <$> concat rows.
Proof.
  induction rows as [| row rows IH]; csimpl; [done |].
  by rewrite fmap_app, IH.
Qed.

Lemma foldl_f64_min_Finite vs : forall v,
  foldl f64_min (Finite v) (Finite <$> vs) = Finite (foldl Rmin v vs).
Proof. induction vs as [| w vs IH]; intros v; csimpl; [done | apply IH]. Qed.

Lemma nd64_min_of a m : nd_min a = Ok m -> nd64_min (nd64_of a) = Got (Finite m).
Proof.
  unfold nd_min, nd64_min, nd64_of. cbn [nd64_data].
  rewrite concat_fmap_Finite.
  destruct (concat (nd_data a)) as [| v vs]; [done |]. csimpl.
  intros [= <-]. by rewrite foldl_f64_min_Finite.
Qed.

Lemma nd64_min_of_empty a :
  concat (nd_data a) = [] -> nd64_min (nd64_of a) = Failed (Raised ValueError).
Proof.
  intros H. unfold nd64_min, nd64_of. cbn [nd64_data].
  by rewrite concat_fmap_Finite, H.
Qed.

Lemma nd64_getitem_of a i j :
  nd64_getitem (nd64_of a) i j
  = match nd_getitem a i j with
    | Ok v => Got (Finite v)
    | Raise e => Failed (Raised e)
    end.
Proof.
  unfold nd64_getitem, nd_getitem, index64, nd64_of, nd_cell.
  cbn [nd64_rows nd64_cols nd64_data].
  destruct (np_index (nd_rows a) i) as [i' | e]; [| done].
  cbn [bind attempt_bind].
  destruct (np_index (nd_cols a) j) as [j' | e]; [| done].
  cbn [bind attempt_bind].
  rewrite list_lookup_fmap.
  destruct (nd_data a !! i') as [row |]; [| done].
  cbn [fmap option_fmap option_map mbind option_bind].
  rewrite list_lookup_fmap. by destruct (row !! j').
Qed.

Lemma omap_lookup_Finite (rows : list (list R)) j :
  omap (.!! j) ((fun row : list R => Finite <$> row) <$> rows)
  = Finite <$> omap (.!! j) rows.
Proof.
  induction rows as [| row rows IH]; csimpl; [done |].
  rewrite list_lookup_fmap. destruct (row !! j); csimpl; by rewrite IH.
Qed.

Lemma nd64_column_of a j col :
  nd_column a j = Ok col ->
  nd64_column (nd64_of a) j = Got (Finite <$> col).
Proof.
  unfold nd64_column, nd_column, index64, nd64_of.
  cbn [nd64_cols nd64_data].
  destruct (np_index (nd_cols a) j) as [j' | e]; [| done].
  cbn [bind attempt_bind]. intros [= <-]. by rewrite omap_lookup_Finite.
Qed.

Lemma nd64_map_of (f64 : pyfloat -> pyfloat) (f : R -> R) a :
  (forall v, v ∈ concat (nd_data a) -> f64 (Finite v) = Finite (f v)) ->
  nd64_map f64 (nd64_of a) = nd64_of (nd_map f a).
Proof.
  intros Hf. unfold nd64_map, nd64_of, nd_map.
  cbn [nd64_rows nd64_cols nd64_data nd_rows nd_cols nd_data]. f_equal.
  rewrite <- !list_fmap_compose. apply list_fmap_ext.
  intros i row Hrow. cbn [compose].
  rewrite <- !list_fmap_compose. apply list_fmap_ext.
  intros k v Hv. cbn [compose]. apply Hf.
  apply list_elem_of_In, in_concat. exists row.
  split; apply list_elem_of_In; by eapply list_elem_of_lookup_2.
Qed.

(** Every cell of the real grid comes from a profile height and a
    coordinate. *)
Lemma grid_of_cells (prof_2d y_axis : list R) y_diam v :
  v ∈ concat (nd_data (grid_of prof_2d y_axis y_diam)) ->
  exists p y, p ∈ prof_2d /\ y ∈ y_axis /\ v = cell_value y_diam p y.
Proof.
  unfold grid_of. cbn [nd_data]. intros Hv.
  apply list_elem_of_In, in_concat in Hv as (row & Hrow & Hv).
  apply list_elem_of_In in Hrow, Hv.
  apply list_elem_of_fmap in Hrow as (p & -> & Hp).
  apply list_elem_of_fmap in Hv as (y & -> & Hy). eauto.
Qed.

Lemma nd_getitem_elem a i j v :
  nd_getitem a i j = Ok v -> v ∈ concat (nd_data a).
Proof.
  unfold nd_getitem, nd_cell.
  destruct (np_index _ i) as [i' |]; [| done]. cbn [bind].
  destruct (np_index _ j) as [j' |]; [| done]. cbn [bind].
  destruct (nd_data a !! i') as [row |] eqn:Erow; [| done].
  cbn [mbind option_bind].
  destruct (row !! j') as [w |] eqn:Ew; [| done]. intros [= <-].
  apply list_elem_of_In, in_concat. exists row.
  split; apply list_elem_of_In; by eapply list_elem_of_lookup_2.
Qed.

Lemma min_prof_elem prof_2d y_diam a ref :
  min_prof prof_2d y_diam a = Ok ref -> ref ∈ concat (nd_data a).
Proof.
  unfold min_prof. destruct (Rlt_dec 0 y_diam).
  - unfold nd_min. destruct (concat (nd_data a)) as [| v vs]; [done |].
    intros [= <-]. apply foldl_Rmin_elem.
  - apply nd_getitem_elem.
Qed.

Lemma min_prof64_of prof_2d y_diam a ref :
  min_prof prof_2d y_diam a = Ok ref ->
  min_prof64 prof_2d y_diam (nd64_of a) = Got (Finite ref).
Proof.
  unfold min_prof, min_prof64. destruct (Rlt_dec 0 y_diam).
  - apply nd64_min_of.
  - intros H. by rewrite nd64_getitem_of, H.
Qed.

Lemma min_prof64_of_raise prof_2d y_diam a e :
  min_prof prof_2d y_diam a = Raise e ->
  min_prof64 prof_2d y_diam (nd64_of a) = Failed (Raised e).
Proof.
  unfold min_prof, min_prof64. destruct (Rlt_dec 0 y_diam).
  - unfold nd_min. destruct (concat (nd_data a)) as [| v vs] eqn:E; [| done].
    intros [= <-]. by apply nd64_min_of_empty.
  - intros H. by rewrite nd64_getitem_of, H.
Qed.

(** Within the float range [profrevolve] on floats returns the floats of the
    real outputs, and raises what the real function raises. *)
Lemma profrevolve64_of kind (prof_2d y_axis : list R) y_diam :
  squares_in_range prof_2d y_axis y_diam ->
  profrevolve64 kind prof_2d y_axis y_diam
  = match profrevolve prof_2d y_axis y_diam with
    | Ok (grid, y_profile) => Got (nd64_of grid, Finite <$> y_profile)
    | Raise e => Failed (Raised e)
    end.
Proof.
  intros Hrange. unfold profrevolve64, profrevolve.
  rewrite (raw_grid64_of kind _ _ _ Hrange), raw_grid_eq.
  cbn [bind attempt_bind].
  set (raw := grid_of prof_2d y_axis y_diam).
  destruct (min_prof prof_2d y_diam raw) as [ref | e] eqn:Href.
  2: { by rewrite (min_prof64_of_raise _ _ _ _ Href). }
  rewrite (min_prof64_of _ _ _ _ Href). cbn [bind attempt_bind].
  destruct Hrange as (Hd & Hps & Hys).
  assert (forall v, v ∈ concat (nd_data raw) ->
            Rabs (v - Rabs y_diam / 2) <= max_float / 2) as Hcells.
  { intros v (p & y & Hp & Hy & ->)%grid_of_cells.
    apply cell_ranges; [done | |].
    - by apply (proj1 (Forall_forall _ _) Hps).
    - by apply (proj1 (Forall_forall _ _) Hys). }
  pose proof (Hcells ref (min_prof_elem _ _ _ _ Href)) as Hr.
  apply Rabs_le_bounds in Hr.
  rewrite (nd64_map_of _ (fun v => - (v - ref))).
  2: { intros v Hv. apply Hcells, Rabs_le_bounds in Hv.
       rewrite f64_sub_finite by lra. done. }
  destruct (nd_column _ _) as [col | e] eqn:Hcol.
  - rewrite (nd64_column_of _ _ _ Hcol). cbn [bind attempt_bind].
    by rewrite (nd64_map_of py_neg Ropp).
  - unfold nd_column in Hcol. unfold nd64_column, index64, nd64_of.
    cbn [nd64_cols nd_map nd_cols] in *.
    destruct (np_index _ _); [done |]. by injection Hcol as ->.
Qed.

(** ** C5: exceptions and NaN *)

Lemma huge_facts :
  let huge := IZR (10 ^ 200) in
  0 < huge <= max_float /\
  max_float < huge ^ 2 /\
  max_float < (1 - huge) * (1 - huge).
Proof.
  cbv zeta. unfold max_float. repeat split.
  - apply IZR_lt. by vm_compute.
  - apply IZR_le. vm_compute. discriminate.
  - rewrite pow_IZR. apply IZR_lt. by vm_compute.
  - rewrite <- minus_IZR, <- mult_IZR. apply IZR_lt. by vm_compute.
Qed.

Lemma squares_in_range_example_1 : squares_in_range [0; 0; 0; 0] [0] (-1).
Proof.
  pose proof max_float_ge_4 as HM. unfold squares_in_range.
  rewrite np_sign_neg by lra. rewrite Rabs_left by lra.
  split; [lra |]. split; repeat constructor; lra.
Qed.

Lemma squares_in_range_example_2 : squares_in_range [] [0; 1] 2.
Proof.
  pose proof max_float_ge_4 as HM. unfold squares_in_range.
  rewrite Rabs_pos_eq by lra.
  split; [lra |]. split; repeat constructor; lra.
Qed.

Lemma squares_in_range_example_3 : squares_in_range [0] [0] 1.
Proof.
  pose proof max_float_ge_4 as HM. unfold squares_in_range.
  rewrite np_sign_pos by lra. rewrite Rabs_pos_eq by lra.
  split; [lra |]. split; repeat constructor; lra.
Qed.

(** A coordinate of 1e200 in a Python list: [pow(y_axis[i_y], 2)] raises. *)
Lemma fill_cell64_overflow prof_3d :
  fill_cell64 PyList [0] [IZR (10 ^ 200)] 2 0 prof_3d 0 = Failed OverflowError.
Proof.
  destruct huge_facts as (_ & Hsq & _).
  unfold fill_cell64. cbn [item lookup list_lookup attempt_bind pow2_of].
  by destruct (Rlt_dec max_float (IZR (10 ^ 200) ^ 2)).
Qed.

(** A profile height of 1e200: the square overflows to infinity and the cell
    becomes minus infinity. *)
Lemma fill_cell64_infinite kind :
  fill_cell64 kind [IZR (10 ^ 200)] [0] 2 0 (np_zeros64 1 1) 0
  = Got (NdArray64 1 1 [[MinusInf]]).
Proof.
  destruct huge_facts as ((Hpos & Hle) & _ & Hsq).
  pose proof max_float_ge_4 as HM.
  set (huge := IZR (10 ^ 200)) in *.
  unfold fill_cell64. cbn [item lookup list_lookup attempt_bind].
  rewrite np_sign_pos by lra.
  rewrite f64_mul_finite by lra.
  rewrite f64_sub_finite by lra.
  replace (2 / 2 - 1 * huge) with (1 - huge) by lra.
  assert (f64_mul (Finite (1 - huge)) (Finite (1 - huge)) = PlusInf) as ->
    by (cbn [f64_mul]; by apply f64_of_above).
  rewrite pow2_of_finite by lra. cbn [attempt_bind].
  cbn [f64_sub py_neg f64_add f64_le0 math_sqrt64 attempt_bind f64_mul].
  unfold f64_scale_inf.
  destruct (Req_dec_T 1 0); [lra |]. destruct (Rlt_dec 0 1); [| lra].
  cbn [f64_add].
  unfold nd64_setitem, np_zeros64. cbn [nd64_rows nd64_cols nd64_data].
  rewrite !index64_nat by lia. done.
Qed.

(** C5, as stated, fails, in four ways: the reference lookup reads
    [prof_3d[1, 1]] in a grid of shape (4, 1), an IndexError; an empty profile
    makes [prof_3d.min()] raise ValueError; a coordinate of 1e200 in a list
    makes [pow] raise OverflowError; and a profile height of 1e200 makes the
    square infinite, the cell and the minimum minus infinity, and the
    returned grid NaN. *)
Lemma profrevolve64_fails :
  profrevolve64 PyList [0; 0; 0; 0] [0] (-1) = Failed (Raised IndexError) /\
  profrevolve64 PyList [] [0; 1] 2 = Failed (Raised ValueError) /\
  profrevolve64 PyList [0] [IZR (10 ^ 200)] 2 = Failed OverflowError /\
  profrevolve64 PyList [IZR (10 ^ 200)] [0] 2
  = Got (NdArray64 1 1 [[NotANumber]], [NotANumber]) /\
  profrevolve64 NpArray [IZR (10 ^ 200)] [0] 2
  = Got (NdArray64 1 1 [[NotANumber]], [NotANumber]).
Proof.
  destruct profrevolve_raises as [Hindex Hvalue].
  split; [| split; [| split; [| split]]].
  - by rewrite (profrevolve64_of _ _ _ _ squares_in_range_example_1), Hindex.
  - by rewrite (profrevolve64_of _ _ _ _ squares_in_range_example_2), Hvalue.
  - unfold profrevolve64, raw_grid64, fill_row64.
    cbn [length range seq for_every attempt_bind].
    by rewrite fill_cell64_overflow.
  - unfold profrevolve64, raw_grid64, fill_row64.
    cbn [length range seq for_every attempt_bind].
    rewrite fill_cell64_infinite. cbn [attempt_bind].
    unfold min_prof64. destruct (Rlt_dec 0 2); [| lra]. done.
  - unfold profrevolve64, raw_grid64, fill_row64.
    cbn [length range seq for_every attempt_bind].
    rewrite fill_cell64_infinite. cbn [attempt_bind].
    unfold min_prof64. destruct (Rlt_dec 0 2); [| lra]. done.
Qed.

(** C5 (amended): for every non-empty [prof_2d] and [y_axis] and every
    [y_diam], all finite floats, such that [y_diam > 0] or the reference
    index [round(len_x / 2) - 1] addresses a row and a column of the grid,
    and such that none of the squares [(y_diam/2 - sign * prof_2d[ix])²] and
    [y_axis[iy]²] exceeds the largest float, [profrevolve] raises no
    exception and every value of the returned grid and of the centre column
    is a finite number, neither NaN nor infinite: the value of the real
    model. *)
Theorem profrevolve64_returns kind (prof_2d y_axis : list R) y_diam :
  prof_2d <> [] -> y_axis <> [] ->
  0 < y_diam \/ ref_cell_exists (length prof_2d) (length y_axis) ->
  squares_in_range prof_2d y_axis y_diam ->
  exists grid y_profile,
    profrevolve64 kind prof_2d y_axis y_diam = Got (grid, y_profile) /\
    (forall v, v ∈ concat (nd64_data grid) -> exists x, v = Finite x) /\
    (forall v, v ∈ y_profile -> exists x, v = Finite x) /\
    exists real_grid real_profile,
      profrevolve prof_2d y_axis y_diam = Ok (real_grid, real_profile) /\
      grid = nd64_of real_grid /\ y_profile = Finite <$> real_profile.
Proof.
  intros Hp Hy Href Hrange.
  destruct (proj2 (profrevolve_returns prof_2d y_axis y_diam) Hp Hy Href)
    as (g & s & Hrun).
  rewrite (profrevolve64_of kind _ _ _ Hrange), Hrun.
  exists (nd64_of g), (Finite <$> s). split; [done |]. split; [| split].
  - unfold nd64_of. cbn [nd64_data]. rewrite concat_fmap_Finite.
    intros v (x & -> & _)%list_elem_of_fmap. eauto.
  - intros v (x & -> & _)%list_elem_of_fmap. eauto.
  - eauto.
Qed.

Lemma profrevolve64_returns_witness :
  exists grid y_profile,
    profrevolve64 PyList [0] [0] 1 = Got (grid, y_profile) /\
    (forall v, v ∈ concat (nd64_data grid) -> exists x, v = Finite x) /\
    (forall v, v ∈ y_profile -> exists x, v = Finite x) /\
    exists real_grid real_profile,
      profrevolve [0] [0] 1 = Ok (real_grid, real_profile) /\
      grid = nd64_of real_grid /\ y_profile = Finite <$> real_profile.
Proof.
  apply (profrevolve64_returns PyList [0] [0] 1); [done | done | left; lra |].
  apply squares_in_range_example_3.
Defined.
